(** * SpyBOAT: the per-pixel wavelet pipeline and its parallel driver

    A shallow embedding of [spyboat/processing.py].

    Conventions.
    - Floating-point numbers are idealised as exact rationals ([Q]); rounding
      is not modelled, except for the store into a 32-bit array, which goes
      through the cast [as_float32] of the numeric interface.
    - Python integers that may be negative ([nT], [n_cpu]) are [Z]; sizes and
      indices are [nat].
    - Exceptions are values of [exn]; a computation that may raise returns a
      [result].
    - The external packages (pyboat, scikit-image, the transcendental parts of
      numpy) are interfaces: type classes whose methods are pure functions
      that may raise a library error.
    - Arrays are mutable objects in a store; [transform_stack] and
      [run_parallel] are statements over the store. Worker processes have
      stores of their own.
    - Printing is not modelled, except that the expressions it prints are
      evaluated. *)

From Stdlib Require Import String.
From Stdlib Require Import List ZArith QArith Qfield Lia Lqa Bool Arith PeanoNat.
Import ListNotations.
Local Open Scope string_scope.
Local Open Scope list_scope.
Local Open Scope Q_scope.


(* ------------------------------------------------------------------ *)
(** ** Exceptions and the error monad *)

(** The exceptions the module can raise itself (through numpy or the
    interpreter), and [LibError] for whatever an external package raises.
    [Unbound] is the lookup of a reference that is not in the object store;
    Python code cannot produce it, callers pass live references. *)
Inductive exn : Type :=
| ValueError (msg : string)
| IndexError (msg : string)
| NameError (name : string)
| ZeroDivisionError
| Unbound (ref : nat)
| LibError (what : string).

Inductive result (A : Type) : Type :=
| Ok (a : A)
| Err (e : exn).

Arguments Ok {A} a.
Arguments Err {A} e.

Definition rbind {A B} (r : result A) (k : A -> result B) : result B :=
  match r with
  | Ok a => k a
  | Err e => Err e
  end.

Declare Scope res_scope.
Delimit Scope res_scope with res.
Notation "'let*' x ':=' c 'in' k" := (rbind c (fun x => k))
  (at level 10, x pattern, c at level 100, k at level 200) : res_scope.
Open Scope res_scope.

(** A [for] loop whose body may raise: the state is threaded from left to
    right and the first exception ends the loop. *)
Fixpoint for_each {A S} (l : list A) (body : S -> A -> result S) (s : S)
  : result S :=
  match l with
  | [] => Ok s
  | a :: l' => let* s' := body s a in for_each l' body s'
  end.

(** [range(n)] *)
Definition range (n : nat) : list nat := seq 0 n.

(* ------------------------------------------------------------------ *)
(** ** numpy: [linspace] *)

(** [y[-1] = v] on a one-dimensional array. *)
Fixpoint set_last (l : list Q) (v : Q) : list Q :=
  match l with
  | [] => []
  | [_] => [v]
  | a :: l' => a :: set_last l' v
  end.

(** [np.arange(0, num)] as floats. *)
Definition arange (n : nat) : list Q :=
  map (fun i => inject_Z (Z.of_nat i)) (range n).

(** [np.linspace(start, stop, num)] with the default [endpoint=True]:
    a negative [num] raises; otherwise [arange(0, num)] is scaled by the
    step, shifted by [start], and for [num > 1] the last entry is overwritten
    with [stop]. A zero step takes numpy's separate path ([y /= div] and then
    [y * delta]). *)
Definition linspace (start stop : Q) (num : Z) : result (list Q) :=
  if (num <? 0)%Z then
    Err (ValueError "Number of samples must be non-negative.")
  else
    let div := (num - 1)%Z in
    let delta := stop - start in
    let y := arange (Z.to_nat num) in
    let y :=
      if (0 <? div)%Z then
        let step := delta / inject_Z div in
        if Qeq_bool step 0 then
          map (fun v => (v / inject_Z div) * delta) y
        else
          map (fun v => v * step) y
      else
        map (fun v => v * delta) y in
    let y := map (fun v => v + start) y in
    Ok (if (1 <? num)%Z then set_last y stop else y).


(* ------------------------------------------------------------------ *)
(** ** numpy: three-dimensional arrays *)

Inductive dtype : Type := Float64 | Float32.

(** One frame: rows of columns. *)
Abbreviation frame := (list (list Q)) (only parsing).

(** A movie: shape [(N, H, W)], axis order (frame, row, column), the element
    type, and the samples as [N] frames of [H] rows of [W] columns. *)
Record ndarray : Type := mk_ndarray {
  shape : nat * nat * nat;
  dtype_of : dtype;
  data : list frame
}.

Definition nframes (a : ndarray) : nat := fst (fst (shape a)).
Definition ydim (a : ndarray) : nat := snd (fst (shape a)).
Definition xdim (a : ndarray) : nat := snd (shape a).

(** The samples agree with the shape. *)
Definition wf_frameb (H W : nat) (fr : frame) : bool :=
  (length fr =? H)%nat && forallb (fun row => (length row =? W)%nat) fr.

Definition wfb (a : ndarray) : bool :=
  (length (data a) =? nframes a)%nat
  && forallb (wf_frameb (ydim a) (xdim a)) (data a).

Definition wf (a : ndarray) : Prop := wfb a = true.

(** The sample at frame [f], row [y], column [x]. *)
Definition sample (a : ndarray) (f y x : nat) : Q :=
  nth x (nth y (nth f (data a) []) []) 0.

(** [l[i] = v] on a Python list or along one axis; the callers check the
    index against the shape first. *)
Fixpoint list_set {A} (l : list A) (i : nat) (v : A) : list A :=
  match l, i with
  | [], _ => []
  | _ :: l', O => v :: l'
  | a :: l', S i' => a :: list_set l' i' v
  end.

(** [np.zeros(shape, dtype)] *)
Definition zeros (shp : nat * nat * nat) (dt : dtype) : ndarray :=
  let '(N, H, W) := shp in
  {| shape := shp; dtype_of := dt;
     data := repeat (repeat (repeat 0 W) H) N |}.

(** [a[:, y, x]]: the time series at one pixel. The indices are checked
    against the shape, as numpy does. *)
Definition getitem_col (a : ndarray) (y x : nat) : result (list Q) :=
  if (y <? ydim a)%nat && (x <? xdim a)%nat then
    Ok (map (fun fr => nth x (nth y fr []) 0) (data a))
  else Err (IndexError "index is out of bounds").

(** numpy broadcasting of two one-dimensional operands: equal lengths pair
    up, a length-one operand is repeated, anything else raises [e]. *)
Definition broadcast2 {A B} (e : exn) (a : list A) (b : list B)
  : result (list (A * B)) :=
  if (length a =? length b)%nat then Ok (combine a b)
  else match a, b with
       | [a0], _ => Ok (map (fun v => (a0, v)) b)
       | _, [b0] => Ok (map (fun u => (u, b0)) a)
       | _, _ => Err e
       end.

(** [a - b] on one-dimensional arrays. *)
Definition np_sub (a b : list Q) : result (list Q) :=
  let* ab := broadcast2
      (ValueError "operands could not be broadcast together") a b in
  Ok (map (fun '(u, v) => u - v) ab).

(** Collects the results of [f] over a list; the first exception wins. *)
Fixpoint map_result {A B} (f : A -> result B) (l : list A)
  : result (list B) :=
  match l with
  | [] => Ok []
  | a :: l' =>
      let* b := f a in
      let* bs := map_result f l' in
      Ok (b :: bs)
  end.

Definition index {A} (l : list A) (i : nat) : result A :=
  match nth_error l i with
  | Some v => Ok v
  | None => Err (IndexError "index is out of bounds")
  end.

(** [periods[ridge_ys]]: indexing a one-dimensional array with an array of
    indices. *)
Definition take {A} (l : list A) (idx : list nat) : result (list A) :=
  map_result (index l) idx.

(** [m[rows, cols]]: indexing a matrix with two index arrays, which are
    broadcast against each other and then read pairwise. *)
Definition take2 {A} (m : list (list A)) (rows cols : list nat)
  : result (list A) :=
  let* rc := broadcast2
      (IndexError "shape mismatch: indexing arrays could not be broadcast")
      rows cols in
  map_result (fun '(r, c) => let* row := index m r in index row c) rc.

(* ------------------------------------------------------------------ *)
(** ** numpy: [array_split] and [concatenate] along the row axis *)

(** Running sums: [cumsum [a; b; c] = [a; a+b; a+b+c]]. *)
Fixpoint cumsum_from (acc : nat) (l : list nat) : list nat :=
  match l with
  | [] => []
  | s :: l' => (acc + s)%nat :: cumsum_from (acc + s) l'
  end.

Definition cumsum (l : list nat) : list nat := cumsum_from 0 l.

(** The section sizes of [array_split]: with [Ntotal = q * n + r], the first
    [r] sections get [q + 1] entries and the other [n - r] get [q]; the list
    starts with the [0] that numpy puts in front before the running sum. *)
Definition section_sizes (Ntotal Nsections : nat) : list nat :=
  let Neach_section := (Ntotal / Nsections)%nat in
  let extras := (Ntotal mod Nsections)%nat in
  [0%nat] ++ repeat (Neach_section + 1)%nat extras
          ++ repeat Neach_section (Nsections - extras).

(** [a[:, st:end, :]] *)
Definition slice_rows (a : ndarray) (st en : nat) : ndarray :=
  {| shape := (nframes a, (Nat.min en (ydim a) - st)%nat, xdim a);
     dtype_of := dtype_of a;
     data := map (fun fr => firstn (en - st) (skipn st fr)) (data a) |}.

(** [np.array_split(a, n, axis=1)] *)
Definition array_split (a : ndarray) (n : Z) : result (list ndarray) :=
  if (n <=? 0)%Z then
    Err (ValueError "number sections must be larger than 0.")
  else
    let Nsections := Z.to_nat n in
    let div_points := cumsum (section_sizes (ydim a) Nsections) in
    Ok (map (fun i => slice_rows a (nth i div_points 0%nat)
                                   (nth (i + 1) div_points 0%nat))
            (range Nsections)).

(** numpy's result type of two floating-point element types. *)
Definition promote (d1 d2 : dtype) : dtype :=
  match d1, d2 with
  | Float32, Float32 => Float32
  | _, _ => Float64
  end.

(** Joining two arrays along the row axis; the other two dimensions must
    agree exactly. *)
Definition append_rows (a b : ndarray) : result ndarray :=
  if (nframes a =? nframes b)%nat && (xdim a =? xdim b)%nat then
    Ok {| shape := (nframes a, (ydim a + ydim b)%nat, xdim a);
          dtype_of := promote (dtype_of a) (dtype_of b);
          data := map (fun '(fa, fb) => fa ++ fb)
                      (combine (data a) (data b)) |}
  else
    Err (ValueError "all the input array dimensions except for the concatenation axis must match exactly").

(** [np.concatenate(arrays, axis=1)] *)
Fixpoint concatenate (l : list ndarray) : result ndarray :=
  match l with
  | [] => Err (ValueError "need at least one array to concatenate")
  | [a] => Ok a
  | a :: l' => let* b := concatenate l' in append_rows a b
  end.

(* ------------------------------------------------------------------ *)
(** ** The object store *)

(** Arrays are mutable objects. A store holds the arrays that exist in one
    interpreter process; a reference is a position in it, and allocation
    appends. *)
Abbreviation ref := nat (only parsing).
Abbreviation store := (list ndarray) (only parsing).

(** A statement: runs in a store, and either raises or returns a value and
    the store it leaves. *)
Definition M (A : Type) : Type := store -> result (A * store).

Definition mret {A} (a : A) : M A := fun h => Ok (a, h).

Definition mbind {A B} (c : M A) (k : A -> M B) : M B :=
  fun h => match c h with
           | Ok (a, h') => k a h'
           | Err e => Err e
           end.

Notation "x <- c ;; k" := (mbind c (fun x => k))
  (at level 61, c at next level, right associativity).
Notation "c ;;; k" := (mbind c (fun _ => k))
  (at level 61, right associativity).

Definition lift {A} (r : result A) : M A :=
  fun h => match r with
           | Ok a => Ok (a, h)
           | Err e => Err e
           end.

Definition alloc (a : ndarray) : M ref := fun h => Ok (length h, h ++ [a]).

Definition deref (h : store) (l : ref) : result ndarray :=
  match nth_error h l with
  | Some a => Ok a
  | None => Err (Unbound l)
  end.

Definition load (l : ref) : M ndarray := fun h => lift (deref h l) h.

Definition put (l : ref) (a : ndarray) : M unit :=
  fun h => if (l <? length h)%nat then Ok (tt, list_set h l a)
           else Err (Unbound l).

(** A [for] loop over statements. *)
Fixpoint for_ {A} (l : list A) (body : A -> M unit) : M unit :=
  match l with
  | [] => mret tt
  | a :: l' => body a ;;; for_ l' body
  end.

(** Runs a statement that returns four references and reads the four arrays
    they denote in the final store: what a caller observes of the call. *)
Definition call (c : M (ref * ref * ref * ref)) (h : store)
  : result (ndarray * ndarray * ndarray * ndarray) :=
  match c h with
  | Err e => Err e
  | Ok ((l1, l2, l3, l4), h') =>
      let* a1 := deref h' l1 in
      let* a2 := deref h' l2 in
      let* a3 := deref h' l3 in
      let* a4 := deref h' l4 in
      Ok (a1, a2, a3, a4)
  end.

(* ------------------------------------------------------------------ *)
(** ** The external packages *)

(** What a call into an external package yields: a value, or an exception of
    that package. *)
Inductive lib_result (A : Type) : Type :=
| Returned (a : A)
| Raised (what : string).

Arguments Returned {A} a.
Arguments Raised {A} what.

Definition from_lib {A} (r : lib_result A) : result A :=
  match r with
  | Returned a => Ok a
  | Raised w => Err (LibError w)
  end.

(** A complex coefficient, real and imaginary part. *)
Abbreviation complex := (Q * Q)%type (only parsing).

(** A two-dimensional array: rows of columns. *)
Abbreviation matrix A := (list (list A)) (only parsing).

(** The parts of numpy that are not rational arithmetic. *)
Class NumPy : Type := {
  np_std : list Q -> Q;
  np_angle : complex -> Q;
  as_float32 : Q -> Q
}.

(** pyboat, the spectral-analysis package: trend extraction, envelope
    normalisation, the wavelet spectrum (magnitude and complex coefficients,
    one row per period and one column per time step), ridge selection (the
    ridge indices and a second component that the caller drops) and the
    power-to-amplitude conversion. *)
Class PyBoat : Type := {
  ridge_aux : Type;
  sinc_smooth : list Q -> Q -> Q -> lib_result (list Q);
  normalize_with_envelope : list Q -> Q -> Q -> lib_result (list Q);
  compute_spectrum :
    list Q -> Q -> list Q -> lib_result (matrix Q * matrix complex);
  get_maxRidge_ys : matrix Q -> lib_result (list nat * ridge_aux);
  power_to_amplitude : list Q -> list Q -> Q -> Q -> lib_result (list Q)
}.

(** A single image with its shape [(h, w)]. *)
Record image : Type := mk_image {
  im_shape : nat * nat;
  im_data : frame
}.

(** scikit-image: [rescale(frame, scale, preserve_range=True)]. *)
Class SkImage : Type := {
  rescale : image -> Q -> lib_result image
}.

(** The first index at which a list is largest, and a column of a
    matrix. *)
Fixpoint argmax_from (best : nat) (bestv : Q) (i : nat) (col : list Q) : nat :=
  match col with
  | [] => best
  | v :: col' =>
      if Qlt_le_dec bestv v then argmax_from i v (S i) col'
      else argmax_from best bestv (S i) col'
  end.

Definition argmax (col : list Q) : nat :=
  match col with
  | [] => 0%nat
  | v :: col' => argmax_from 0%nat v 1%nat col'
  end.

Definition column {A} (d : A) (m : matrix A) (t : nat) : list A :=
  map (fun row => nth t row d) m.

(* ------------------------------------------------------------------ *)
(** ** A small executable instance of the interfaces

    It serves to run the model on concrete inputs. The trend is the first
    sample held constant, the envelope normalisation divides by the window,
    the magnitude at (period, time) is the squared distance of the sample to
    the period, and the ridge stays on the row that is largest at the first
    time step. *)
Module Toy.

Definition std (v : list Q) : Q := fold_right Qplus 0 v.

Definition angle (c : complex) : Q := snd c - fst c.

Definition float32 (q : Q) : Q := Qred q.

Definition smooth (v : list Q) (T_c dt : Q) : lib_result (list Q) :=
  Returned (repeat (hd 0 v) (length v)).

Definition normalize (v : list Q) (L dt : Q) : lib_result (list Q) :=
  Returned (map (fun s => s / L) v).

Definition spectrum (v : list Q) (dt : Q) (periods : list Q)
  : lib_result (matrix Q * matrix complex) :=
  Returned (map (fun p => map (fun s => (s - p) * (s - p)) v) periods,
            map (fun p => map (fun s => (s, p)) v) periods).

Definition ridge (m : matrix Q) : lib_result (list nat * unit) :=
  Returned (repeat (argmax (column 0 m 0)) (length (hd [] m)), tt).

Definition amplitude (rp pw : list Q) (sigma dt : Q)
  : lib_result (list Q) :=
  Returned (map (fun w => w * sigma) pw).

Definition resample (im : image) (scale : Q) : lib_result image :=
  Returned im.

Definition numpy : NumPy :=
  {| np_std := std; np_angle := angle; as_float32 := float32 |}.

Definition pyboat : PyBoat :=
  {| ridge_aux := unit;
     sinc_smooth := smooth;
     normalize_with_envelope := normalize;
     compute_spectrum := spectrum;
     get_maxRidge_ys := ridge;
     power_to_amplitude := amplitude |}.

Definition skimage : SkImage := {| rescale := resample |}.

(** Three frames of two rows and two columns. *)
Definition movie : ndarray :=
  {| shape := (3, 2, 2)%nat; dtype_of := Float64;
     data := [ [[1; 2]; [3; 4]]; [[5; 6]; [7; 8]]; [[9; 10]; [11; 12]] ] |}.

(** Two frames of a single pixel. *)
Definition clip : ndarray :=
  {| shape := (2, 1, 1)%nat; dtype_of := Float64;
     data := [ [[1]]; [[3]] ] |}.

End Toy.

(** scikit-image: [skimage.filters.gaussian(frame, sigma)]. *)
Class SkFilters : Type := {
  gaussian : image -> Q -> lib_result image
}.

(** An executable instance of the filter interface: every sample is
    replaced by the mean of the samples of its row. *)
Module ToyFilters.

Definition row_mean (row : list Q) : Q :=
  fold_right Qplus 0 row / inject_Z (Z.of_nat (length row)).

Definition blur (im : image) (sigma : Q) : lib_result image :=
  Returned {| im_shape := im_shape im;
              im_data := map (fun row => map (fun _ => Qred (row_mean row)) row)
                             (im_data im) |}.

Definition skfilters : SkFilters := {| gaussian := blur |}.

End ToyFilters.

(** Inputs and library instances for the edge cases: movies without rows and
    without frames, a movie whose two pixels carry the same series, and
    libraries that raise on some inputs or return a ridge outside the
    grid. *)
Module ToyCases.

Definition no_rows : ndarray :=
  {| shape := (2, 0, 3)%nat; dtype_of := Float64; data := [ []; [] ] |}.

Definition no_frames : ndarray :=
  {| shape := (0, 2, 2)%nat; dtype_of := Float64; data := [] |}.

Definition twins : ndarray :=
  {| shape := (2, 1, 2)%nat; dtype_of := Float64;
     data := [ [[1; 1]]; [[3; 3]] ] |}.

(** Trend extraction that rejects a series starting with 3. *)
Definition picky_smooth (v : list Q) (T_c dt : Q) : lib_result (list Q) :=
  if Qeq_bool (hd 0 v) 3 then Raised "series rejected"
  else Toy.smooth v T_c dt.

Definition picky_pyboat : PyBoat :=
  {| ridge_aux := unit;
     sinc_smooth := picky_smooth;
     normalize_with_envelope := Toy.normalize;
     compute_spectrum := Toy.spectrum;
     get_maxRidge_ys := Toy.ridge;
     power_to_amplitude := Toy.amplitude |}.

(** A ridge routine that answers with the row count, one past the last
    row. *)
Definition stray_ridge (m : matrix Q) : lib_result (list nat * unit) :=
  Returned (repeat (length m) (length (hd [] m)), tt).

Definition stray_pyboat : PyBoat :=
  {| ridge_aux := unit;
     sinc_smooth := Toy.smooth;
     normalize_with_envelope := Toy.normalize;
     compute_spectrum := Toy.spectrum;
     get_maxRidge_ys := stray_ridge;
     power_to_amplitude := Toy.amplitude |}.

(** An image function that rejects an image whose first sample is 5. *)
Definition picky_image (im : image) (s : Q) : lib_result image :=
  if Qeq_bool (hd 0 (hd [] (im_data im))) 5 then Raised "image rejected"
  else Returned im.

Definition picky_skimage : SkImage := {| rescale := picky_image |}.

Definition picky_skfilters : SkFilters := {| gaussian := picky_image |}.

End ToyCases.

(* ------------------------------------------------------------------ *)
(** ** [spyboat/processing.py] *)

Section Model.

Context {numpy : NumPy} {pb : PyBoat} {skimage : SkImage}.

(** The cast applied when a value is stored into an array. *)
Definition cast (dt : dtype) (v : Q) : Q :=
  match dt with
  | Float32 => as_float32 v
  | Float64 => v
  end.

(** The right-hand side of an assignment to a slice of [n] entries: the
    same length, or a single entry that is repeated. *)
Definition broadcast_to (n : nat) (vals : list Q) : result (list Q) :=
  if (length vals =? n)%nat then Ok vals
  else match vals with
       | [v] => Ok (repeat v n)
       | _ => Err (ValueError "could not broadcast input array")
       end.

(** [a[:, y, x] = vals] *)
Definition setitem_col (a : ndarray) (y x : nat) (vals : list Q)
  : result ndarray :=
  if (y <? ydim a)%nat && (x <? xdim a)%nat then
    let* vs := broadcast_to (nframes a) vals in
    Ok {| shape := shape a; dtype_of := dtype_of a;
          data := map (fun '(fr, v) =>
                         list_set fr y
                           (list_set (nth y fr []) x (cast (dtype_of a) v)))
                      (combine (data a) vs) |}
  else Err (IndexError "index is out of bounds").

(** The same two operations on an array in the store. *)
Definition read_col (l : ref) (y x : nat) : M (list Q) :=
  a <- load l ;; lift (getitem_col a y x).

Definition write_col (l : ref) (y x : nat) (vals : list Q) : M unit :=
  a <- load l ;; a' <- lift (setitem_col a y x vals) ;; put l a'.

Definition np_zeros (shp : nat * nat * nat) (dt : dtype) : M ref :=
  alloc (zeros shp dt).

(** *** Pre-processing: [down_sample] *)

(** [movie[f, ...]] *)
Definition getitem_frame (a : ndarray) (f : nat) : result image :=
  if (f <? nframes a)%nat then
    Ok {| im_shape := (ydim a, xdim a); im_data := nth f (data a) [] |}
  else Err (IndexError "index is out of bounds").

(** [movie[f, ...] = im]: the image is broadcast to the frame shape (every
    dimension equal, or one and repeated). *)
Definition setitem_frame (a : ndarray) (f : nat) (im : image)
  : result ndarray :=
  if (f <? nframes a)%nat then
    let '(h, w) := im_shape im in
    if ((h =? ydim a)%nat || (h =? 1)%nat)
       && ((w =? xdim a)%nat || (w =? 1)%nat) then
      let src y x :=
        nth (if (w =? 1)%nat then 0%nat else x)
            (nth (if (h =? 1)%nat then 0%nat else y) (im_data im) []) 0 in
      Ok {| shape := shape a; dtype_of := dtype_of a;
            data := list_set (data a) f
                      (map (fun y =>
                              map (fun x => cast (dtype_of a) (src y x))
                                  (range (xdim a)))
                           (range (ydim a))) |}
    else Err (ValueError "could not broadcast input array")
  else Err (IndexError "index is out of bounds").

(** [down_sample(movie, scale_factor)], lines 23 to 55. The movie is only
    read; [movie_ds] is the loop state. *)
Definition down_sample (movie : ndarray) (scale_factor : Q)
  : result ndarray :=
  if Qlt_le_dec 1 scale_factor then
    Err (ValueError "Upscaling is not supported!")
  else
    let* first := getitem_frame movie 0 in
    let* frame1 := from_lib (rescale first scale_factor) in
    let movie_ds :=
      zeros (nframes movie, fst (im_shape frame1), snd (im_shape frame1))
            Float64 in
    for_each (range (nframes movie))
      (fun movie_ds f =>
         let* fr := getitem_frame movie f in
         let* im := from_lib (rescale fr scale_factor) in
         setitem_frame movie_ds f im)
      movie_ds.

(** *** The pixel pipeline: the body of the loop in [transform_stack] *)

(** The progress messages, lines 142 to 148. Printing has no effect on the
    results; what is kept is the arithmetic that decides whether to print,
    which divides by the pixel count. *)
Definition progress (Npixels ydim x y : nat) : result unit :=
  if (Npixels <? 10)%nat then
    if (Npixels =? 0)%nat then Err ZeroDivisionError else Ok tt
  else
    if (Npixels / 10 =? 0)%nat then Err ZeroDivisionError else Ok tt.

(** Lines 152 to 157: sinc detrending, skipped when [T_c] is [None]. *)
Definition detrend (dt : Q) (T_c : option Q) (input_vec : list Q)
  : result (list Q) :=
  let signal := input_vec in
  match T_c with
  | Some T_c =>
      let* trend := from_lib (sinc_smooth input_vec T_c dt) in
      np_sub signal trend
  | None => Ok signal
  end.

(** Lines 159 to 161: amplitude normalisation, skipped when [L] is
    [None]. *)
Definition normalize (dt : Q) (L : option Q) (signal : list Q)
  : result (list Q) :=
  match L with
  | Some L => from_lib (normalize_with_envelope signal L dt)
  | None => Ok signal
  end.

(** The four ridge read-outs of one pixel, in the order in which
    [transform_stack] returns its movies. *)
Abbreviation ridge := (list Q * list Q * list Q * list Q)%type (only parsing).

(** Lines 163 to 173: spectrum, ridge selection, and the four read-outs
    along the ridge. *)
Definition ridge_readout (periods : list Q) (dt : Q) (signal : list Q)
  : result ridge :=
  let sigma := np_std signal in
  let Nt := length signal in
  let* (modulus, wlet) := from_lib (compute_spectrum signal dt periods) in
  let* (ridge_ys, _) := from_lib (get_maxRidge_ys modulus) in
  let* ridge_periods := take periods ridge_ys in
  let* powers := take2 modulus ridge_ys (range Nt) in
  let* coeffs := take2 wlet ridge_ys (range Nt) in
  let phases := map np_angle coeffs in
  let* amplitudes :=
    from_lib (power_to_amplitude ridge_periods powers sigma dt) in
  Ok (phases, ridge_periods, powers, amplitudes).

(** Lines 150 to 173 for one time series. *)
Definition transform_pixel (periods : list Q) (dt : Q) (T_c L : option Q)
    (input_vec : list Q) : result ridge :=
  let* signal := detrend dt T_c input_vec in
  let* signal := normalize dt L signal in
  ridge_readout periods dt signal.

(** *** [transform_stack], lines 85 to 180 *)

(** The loop over the pixel coordinates, columns outermost, for a period
    grid that has been built. The four output arrays are written in
    place. *)
Definition pixel_loop (periods : list Q) (movie : ref) (dt : Q)
    (T_c L : option Q) (ydim xdim : nat)
    (phase_movie period_movie power_movie amplitude_movie : ref) : M unit :=
  let Npixels := (ydim * xdim)%nat in
  for_ (range xdim) (fun x =>
    for_ (range ydim) (fun y =>
      lift (progress Npixels ydim x y) ;;;
      input_vec <- read_col movie y x ;;
      r <- lift (transform_pixel periods dt T_c L input_vec) ;;
      let '(phases, ridge_periods, powers, amplitudes) := r in
      write_col phase_movie y x phases ;;;
      write_col period_movie y x ridge_periods ;;;
      write_col power_movie y x powers ;;;
      write_col amplitude_movie y x amplitudes)).

Definition transform_stack (movie : ref) (dt Tmin Tmax : Q) (nT : Z)
    (T_c L : option Q) : M (ref * ref * ref * ref) :=
  periods <- lift (linspace Tmin Tmax nT) ;;
  mv <- load movie ;;
  period_movie <- np_zeros (shape mv) Float32 ;;
  phase_movie <- np_zeros (shape mv) Float32 ;;
  power_movie <- np_zeros (shape mv) Float32 ;;
  amplitude_movie <- np_zeros (shape mv) Float32 ;;
  pixel_loop periods movie dt T_c L (ydim mv) (xdim mv)
             phase_movie period_movie power_movie amplitude_movie ;;;
  mret (phase_movie, period_movie, power_movie, amplitude_movie).

(** *** [run_parallel], lines 184 to 252 *)

(** The names that are bound while the body of [run_parallel] runs: its
    parameters and [ncpu_avail], the names the module defines or imports,
    and the builtins it uses. *)
Definition run_parallel_scope : list string :=
  ["movie"; "n_cpu"; "dt"; "Tmin"; "Tmax"; "nT"; "T_c"; "L"; "ncpu_avail";
   "sys"; "np"; "mp"; "rescale"; "gaussian"; "pb";
   "down_sample"; "gaussian_blur"; "transform_stack"; "run_parallel";
   "print"; "len"; "range"; "int"; "ValueError"].

(** Evaluating a name: a name that is not bound raises [NameError]. *)
Definition lookup_name (scope : list string) (name : string) : result unit :=
  if existsb (String.eqb name) scope then Ok tt else Err (NameError name).

(** Evaluating an f-string evaluates the names in its braces, left to
    right. A [print] is kept as the evaluation of its argument; what it
    writes to standard output is not modelled. *)
Definition fstring (scope : list string) (names : list string)
  : result unit :=
  for_each names (fun _ name => lookup_name scope name) tt.

(** [mp.Pool(n)] *)
Definition mp_Pool (n : Z) : result unit :=
  if (n <? 1)%Z then Err (ValueError "Number of processes must be at least 1")
  else Ok tt.

(** One task of the pool. The worker is a process of its own: it receives a
    copy of the slice, runs [transform_stack] on it in its own store, and
    sends the four arrays back. *)
Definition worker (dt Tmin Tmax : Q) (nT : Z) (T_c L : option Q)
    (chunk : ndarray) : result (ndarray * ndarray * ndarray * ndarray) :=
  call (transform_stack 0%nat dt Tmin Tmax nT T_c L) [chunk].

(** [pool.starmap(f, args)]: the results in the order of the arguments. When
    tasks fail the call raises; the exception reported here is that of the
    first failing task in argument order. *)
Definition starmap {A B} (f : A -> result B) (args : list A)
  : result (list B) :=
  map_result f args.

(** [np.concatenate] returns a new array. *)
Definition np_concatenate (l : list ndarray) : M ref :=
  a <- lift (concatenate l) ;; alloc a.

(** [ncpu_avail] is the value of [mp.cpu_count()]. The slices and the
    workers' results are values of the parent process that nothing writes
    to; the four concatenated movies are new arrays in its store. *)
Definition run_parallel (ncpu_avail : Z) (movie : ref) (n_cpu : Z)
    (dt Tmin Tmax : Q) (nT : Z) (T_c L : option Q)
  : M (ref * ref * ref * ref) :=
  lift (fstring run_parallel_scope ["ncpu_avail"]) ;;;
  n_cpu <- (if (ncpu_avail <? n_cpu)%Z then
              lift (fstring run_parallel_scope ["ncpu_req"; "ncpu_avail"]) ;;;
              lift (fstring run_parallel_scope ["ncpu_avail"]) ;;;
              mret ncpu_avail
            else mret n_cpu) ;;
  lift (fstring run_parallel_scope ["n_cpu"]) ;;;
  lift (mp_Pool n_cpu) ;;;
  mv <- load movie ;;
  movie_split <- lift (array_split mv n_cpu) ;;
  res_movies <- lift (starmap (worker dt Tmin Tmax nT T_c L) movie_split) ;;
  phase_movie <-
    np_concatenate (map (fun r => fst (fst (fst r))) res_movies) ;;
  period_movie <-
    np_concatenate (map (fun r => snd (fst (fst r))) res_movies) ;;
  power_movie <- np_concatenate (map (fun r => snd (fst r)) res_movies) ;;
  amplitude_movie <- np_concatenate (map (fun r => snd r) res_movies) ;;
  mret (phase_movie, period_movie, power_movie, amplitude_movie).

(* ------------------------------------------------------------------ *)
(** ** The loop of [transform_stack] on array values

    The same loop with the four output arrays as explicit loop state. The
    store version above is shown to compute exactly this, with the output
    arrays appended to the store. *)

(** The samples of [a[:, y, x]], without the bounds check. *)
Definition col (a : ndarray) (y x : nat) : list Q :=
  map (fun fr => nth x (nth y fr []) 0) (data a).

Abbreviation movies := (ndarray * ndarray * ndarray * ndarray)%type
  (only parsing).

Definition pixel_step (periods : list Q) (mv : ndarray) (dt : Q)
    (T_c L : option Q) (Npixels ydim : nat) (o : movies) (x y : nat)
  : result movies :=
  let '(phase_movie, period_movie, power_movie, amplitude_movie) := o in
  let* _ := progress Npixels ydim x y in
  let* input_vec := getitem_col mv y x in
  let* r := transform_pixel periods dt T_c L input_vec in
  let '(phases, ridge_periods, powers, amplitudes) := r in
  let* phase_movie := setitem_col phase_movie y x phases in
  let* period_movie := setitem_col period_movie y x ridge_periods in
  let* power_movie := setitem_col power_movie y x powers in
  let* amplitude_movie := setitem_col amplitude_movie y x amplitudes in
  Ok (phase_movie, period_movie, power_movie, amplitude_movie).

Definition pixel_loop_value (periods : list Q) (mv : ndarray) (dt : Q)
    (T_c L : option Q) (o : movies) : result movies :=
  let Npixels := (ydim mv * xdim mv)%nat in
  for_each (range (xdim mv))
    (fun o x =>
       for_each (range (ydim mv))
         (fun o y => pixel_step periods mv dt T_c L Npixels (ydim mv) o x y)
         o)
    o.

Definition transform_stack_value (mv : ndarray) (dt Tmin Tmax : Q) (nT : Z)
    (T_c L : option Q) : result movies :=
  let* periods := linspace Tmin Tmax nT in
  let z := zeros (shape mv) Float32 in
  pixel_loop_value periods mv dt T_c L (z, z, z, z).

(** What ends up in a 32-bit output column for a read-out [vals]. *)
Definition stored (n : nat) (vals : list Q) : result (list Q) :=
  let* vs := broadcast_to n vals in
  Ok (map (cast Float32) vs).

(** The four output columns of one pixel time series. *)
Definition pixel_cols (periods : list Q) (dt : Q) (T_c L : option Q)
    (n : nat) (input_vec : list Q) : result ridge :=
  let* r := transform_pixel periods dt T_c L input_vec in
  let '(phases, ridge_periods, powers, amplitudes) := r in
  let* c1 := stored n phases in
  let* c2 := stored n ridge_periods in
  let* c3 := stored n powers in
  let* c4 := stored n amplitudes in
  Ok (c1, c2, c3, c4).

(** An output array of the right shape and element type for the movie. *)
Definition output_for (mv o : ndarray) : Prop :=
  wf o /\ shape o = shape mv /\ dtype_of o = Float32.

(** The pixels [(x, y)] for which [sel x y] holds carry, in the four arrays,
    the four output columns of the movie's time series at that pixel. *)
Definition filled (periods : list Q) (dt : Q) (T_c L : option Q)
    (mv : ndarray) (sel : nat -> nat -> Prop) (o : movies) : Prop :=
  let '(ph, pe, po, am) := o in
  forall x y, (x < xdim mv)%nat -> (y < ydim mv)%nat -> sel x y ->
    pixel_cols periods dt T_c L (nframes mv) (col mv y x)
    = Ok (col ph y x, col pe y x, col po y x, col am y x).

(** The four output movies of a movie, pixel by pixel. *)
Definition ridge_movies (periods : list Q) (dt : Q) (T_c L : option Q)
    (mv : ndarray) (o : movies) : Prop :=
  let '(ph, pe, po, am) := o in
  output_for mv ph /\ output_for mv pe /\ output_for mv po
  /\ output_for mv am
  /\ filled periods dt T_c L mv (fun _ _ => True) o.

(** The recursive reading of [array_split]: cut [sz] rows at a time,
    starting at row [st]. *)
Fixpoint slices (a : ndarray) (st : nat) (sizes : list nat) : list ndarray :=
  match sizes with
  | [] => []
  | sz :: sizes' => slice_rows a st (st + sz) :: slices a (st + sz) sizes'
  end.

Definition sum (l : list nat) : nat := fold_right Nat.add 0%nat l.

(** The four concatenations at the end of [run_parallel]. *)
Definition concat4 (os : list movies) : result movies :=
  let* ph := concatenate (map (fun r => fst (fst (fst r))) os) in
  let* pe := concatenate (map (fun r => snd (fst (fst r))) os) in
  let* po := concatenate (map (fun r => snd (fst r)) os) in
  let* am := concatenate (map (fun r => snd r) os) in
  Ok (ph, pe, po, am).

(** [run_parallel] on array values, for a worker count that is not above
    the available capacity. *)
Definition run_parallel_value (mv : ndarray) (n_cpu : Z) (dt Tmin Tmax : Q)
    (nT : Z) (T_c L : option Q) : result movies :=
  let* chunks := array_split mv n_cpu in
  let* os := map_result
               (fun c => transform_stack_value c dt Tmin Tmax nT T_c L)
               chunks in
  concat4 os.

(** The layout of the four output arrays behind the caller's store, in the
    order in which [transform_stack] allocates them. *)
Definition behind (h : store) (o : movies) : store :=
  let '(ph, pe, po, am) := o in h ++ [pe; ph; po; am].

(** The sizes of [section_sizes] behind the leading zero. *)
Definition chunk_sizes (H n : nat) : list nat :=
  repeat (H / n + 1)%nat (H mod n) ++ repeat (H / n)%nat (n - H mod n).

(** *** Predicates used in the proofs *)

Definition wf_frame (H W : nat) (fr : frame) : Prop :=
  length fr = H /\ Forall (fun row => length row = W) fr.

(** The loop invariant: four output arrays for the movie, filled at the
    pixels done so far. *)
Definition loop_inv (periods : list Q) (dt : Q) (T_c L : option Q)
    (mv : ndarray) (done : list (nat * nat)) (o : movies) : Prop :=
  output_for mv (fst (fst (fst o))) /\ output_for mv (snd (fst (fst o)))
  /\ output_for mv (snd (fst o)) /\ output_for mv (snd o)
  /\ filled periods dt T_c L mv (fun x y => In (x, y) done) o.

(** Every pixel of the movie goes through the pipeline without an
    exception. *)
Definition pixels_ok (periods : list Q) (dt : Q) (T_c L : option Q)
    (mv : ndarray) : Prop :=
  forall x y, (x < xdim mv)%nat -> (y < ydim mv)%nat ->
    exists c, pixel_cols periods dt T_c L (nframes mv) (col mv y x) = Ok c.

(* ------------------------------------------------------------------ *)
(** ** The rest of the pre-processing: [gaussian_blur] *)

Context {skfilters : SkFilters}.

(** [gaussian_blur(movie, sigma)], lines 57 to 80. The movie is only read;
    [movie_gb] is the loop state. *)
Definition gaussian_blur (movie : ndarray) (sigma : Q) : result ndarray :=
  let movie_gb := zeros (shape movie) Float64 in
  for_each (range (nframes movie))
    (fun movie_gb f =>
       let* fr := getitem_frame movie f in
       let* im := from_lib (gaussian fr sigma) in
       setitem_frame movie_gb f im)
    movie_gb.

(** *** Notions used to state what the frame loops compute *)

(** The image [movie[f, ...]]. *)
Definition frame_of (movie : ndarray) (f : nat) : image :=
  {| im_shape := (ydim movie, xdim movie); im_data := nth f (data movie) [] |}.

(** The sample that an image contributes at row [y], column [x] of a frame
    it is broadcast to: a dimension of size one is repeated. *)
Definition image_at (im : image) (y x : nat) : Q :=
  nth (if (snd (im_shape im) =? 1)%nat then 0%nat else x)
      (nth (if (fst (im_shape im) =? 1)%nat then 0%nat else y)
           (im_data im) []) 0.

(** The loop shared by [down_sample] and [gaussian_blur]: every frame goes
    through the library function [g] and is written to the output movie. *)
Definition frame_loop (g : image -> lib_result image) (movie out : ndarray)
  : result ndarray :=
  for_each (range (nframes movie))
    (fun out f =>
       let* fr := getitem_frame movie f in
       let* im := from_lib (g fr) in
       setitem_frame out f im)
    out.

(** The image can be broadcast to a frame of [H] rows and [W] columns. *)
Definition fits (im : image) (H W : nat) : Prop :=
  (fst (im_shape im) = H \/ fst (im_shape im) = 1%nat)
  /\ (snd (im_shape im) = W \/ snd (im_shape im) = 1%nat).

(** The invariant of that loop: the output keeps its shape and element
    type, and the frames done so far hold what the library returned. *)
Definition frames_inv (g : image -> lib_result image) (movie : ndarray)
    (shp : nat * nat * nat) (dt : dtype) (done : list nat) (out : ndarray)
  : Prop :=
  wf out /\ shape out = shp /\ dtype_of out = dt
  /\ forall f, In f done ->
       exists im,
         g (frame_of movie f) = Returned im
         /\ fits im (ydim out) (xdim out)
         /\ forall y x, (y < ydim out)%nat -> (x < xdim out)%nat ->
              sample out f y x = cast dt (image_at im y x).

(** Pixel [(x', y')] is visited before pixel [(x, y)] by the loop of
    [transform_stack]: columns outermost, rows innermost. *)
Definition visited_before (x' y' x y : nat) : Prop :=
  (x' < x)%nat \/ (x' = x /\ (y' < y)%nat).

(* ------------------------------------------------------------------ *)
(** * Proofs *)


(* ------------------------------------------------------------------ *)
(** ** Lemmas on [linspace] *)

Lemma length_set_last l v : length (set_last l v) = length l.
Proof.
  induction l as [|a [|b l'] IH]; simpl in *; auto.
Qed.



Lemma length_arange n : length (arange n) = n.
Proof. unfold arange, range. now rewrite length_map, length_seq. Qed.


Lemma linspace_length start stop num g :
  linspace start stop num = Ok g -> length g = Z.to_nat num.
Proof.
  unfold linspace. destruct (num <? 0)%Z; [discriminate|].
  intros H; injection H as <-.
  destruct (1 <? num)%Z; rewrite ?length_set_last;
    destruct (0 <? num - 1)%Z; try destruct (Qeq_bool _ _);
    now rewrite !length_map, length_arange.
Qed.

Lemma nth_map_lt {A B} (f : A -> B) l i da db :
  (i < length l)%nat -> nth i (map f l) db = f (nth i l da).
Proof.
  intros Hi. rewrite (nth_indep _ db (f da)) by now rewrite length_map.
  apply map_nth.
Qed.



(* ------------------------------------------------------------------ *)
(** ** Lists *)

Lemma length_list_set {A} (l : list A) i v :
  length (list_set l i v) = length l.
Proof.
  revert i. induction l as [|a l IH]; intros [|i]; simpl; auto.
Qed.

Lemma nth_list_set {A} (l : list A) i j v d :
  nth j (list_set l i v) d
  = if (j =? i)%nat && (i <? length l)%nat then v else nth j l d.
Proof.
  revert i j. induction l as [|a l IH]; intros i j.
  - simpl. rewrite andb_false_r. reflexivity.
  - destruct i as [|i], j as [|j]; simpl; auto.
Qed.

Lemma map_combine_fst {A B C} (f : A * B -> C) (g : A -> C) l1 l2 :
  length l1 = length l2 ->
  (forall a b, In a l1 -> f (a, b) = g a) ->
  map f (combine l1 l2) = map g l1.
Proof.
  revert l2. induction l1 as [|a l1 IH]; intros [|b l2] Hlen Hf;
    simpl in *; try discriminate; auto.
  f_equal; auto.
Qed.

Lemma map_combine_snd {A B C} (f : A * B -> C) (g : B -> C) l1 l2 :
  length l1 = length l2 ->
  (forall a b, In a l1 -> f (a, b) = g b) ->
  map f (combine l1 l2) = map g l2.
Proof.
  revert l2. induction l1 as [|a l1 IH]; intros [|b l2] Hlen Hf;
    simpl in *; try discriminate; auto.
  f_equal; auto.
Qed.

(* ------------------------------------------------------------------ *)
(** ** Well-formed arrays *)

Lemma wf_frameb_spec H W fr : wf_frameb H W fr = true <-> wf_frame H W fr.
Proof.
  unfold wf_frameb, wf_frame.
  rewrite andb_true_iff, Nat.eqb_eq, forallb_forall, Forall_forall.
  split; intros [H1 H2]; split; auto; intros r Hr; apply Nat.eqb_eq; auto.
Qed.

Lemma wf_spec a :
  wf a <->
  length (data a) = nframes a
  /\ Forall (wf_frame (ydim a) (xdim a)) (data a).
Proof.
  unfold wf, wfb.
  rewrite andb_true_iff, Nat.eqb_eq, forallb_forall, Forall_forall.
  split; intros [H1 H2]; split; auto; intros r Hr;
    apply wf_frameb_spec; auto.
Qed.

Lemma length_col a y x : length (col a y x) = length (data a).
Proof. unfold col. apply length_map. Qed.

Lemma nth_col a y x f :
  (f < length (data a))%nat -> nth f (col a y x) 0 = sample a f y x.
Proof.
  intros Hf. unfold col, sample. now rewrite (nth_map_lt _ _ _ []).
Qed.

Lemma getitem_col_ok a y x :
  (y < ydim a)%nat -> (x < xdim a)%nat -> getitem_col a y x = Ok (col a y x).
Proof.
  intros Hy Hx. unfold getitem_col.
  destruct (Nat.ltb_spec y (ydim a)); [|lia].
  destruct (Nat.ltb_spec x (xdim a)); [|lia]. reflexivity.
Qed.

(** Two well-formed arrays of one shape and element type that agree on
    every pixel column are the same array. *)
Lemma ndarray_ext a b :
  wf a -> wf b -> shape a = shape b -> dtype_of a = dtype_of b ->
  (forall y x, (y < ydim a)%nat -> (x < xdim a)%nat ->
     col a y x = col b y x) ->
  a = b.
Proof.
  intros Ha Hb Hs Hd Hcol.
  apply wf_spec in Ha, Hb. destruct Ha as [Ha1 Ha2], Hb as [Hb1 Hb2].
  assert (HN : nframes a = nframes b) by (unfold nframes; now rewrite Hs).
  assert (HH : ydim a = ydim b) by (unfold ydim; now rewrite Hs).
  assert (HW : xdim a = xdim b) by (unfold xdim; now rewrite Hs).
  destruct a as [sa da fa], b as [sb db fb].
  unfold nframes, ydim, xdim in *; simpl in *. subst sb db.
  f_equal.
  rewrite Forall_forall in Ha2, Hb2.
  apply (nth_ext _ _ [] []); [congruence|].
  intros f Hf.
  destruct (Ha2 (nth f fa [])) as [Hfa1 Hfa2]; [apply nth_In; auto|].
  destruct (Hb2 (nth f fb [])) as [Hfb1 Hfb2]; [apply nth_In; lia|].
  rewrite Forall_forall in Hfa2, Hfb2.
  apply (nth_ext _ _ [] []); [congruence|].
  intros y Hy.
  apply (nth_ext _ _ 0 0).
  { rewrite Hfa2, Hfb2; auto; apply nth_In; lia. }
  intros x Hx.
  assert (Hxx : (x < snd sa)%nat).
  { rewrite <- (Hfa2 (nth y (nth f fa []) [])); auto. apply nth_In; lia. }
  assert (Hyy : (y < snd (fst sa))%nat) by lia.
  specialize (Hcol y x Hyy Hxx).
  apply (f_equal (fun l => nth f l 0)) in Hcol.
  rewrite !nth_col in Hcol by (simpl; lia).
  exact Hcol.
Qed.

(* ------------------------------------------------------------------ *)
(** ** Writing a pixel column *)

Lemma broadcast_to_length n vals vs :
  broadcast_to n vals = Ok vs -> length vs = n.
Proof.
  unfold broadcast_to. destruct (Nat.eqb_spec (length vals) n) as [E|E].
  - intros H; injection H as <-. exact E.
  - destruct vals as [|v [|w vals]]; try discriminate.
    intros H; injection H as <-. apply repeat_length.
Qed.

Lemma wf_frame_set H W (fr : frame) y x v :
  wf_frame H W fr ->
  wf_frame H W (list_set fr y (list_set (nth y fr []) x v)).
Proof.
  intros [H1 H2]. split; [now rewrite length_list_set|].
  rewrite Forall_forall in *. intros row Hrow.
  apply In_nth with (d := []) in Hrow. destruct Hrow as (j & Hj & <-).
  rewrite length_list_set in Hj. rewrite nth_list_set.
  destruct (_ && _) eqn:E.
  - rewrite length_list_set. apply andb_true_iff in E. destruct E as [_ E].
    apply Nat.ltb_lt in E. apply H2, nth_In, E.
  - apply H2, nth_In, Hj.
Qed.

Lemma setitem_col_spec a y x vals a' :
  wf a -> setitem_col a y x vals = Ok a' ->
  exists vs,
    broadcast_to (nframes a) vals = Ok vs
    /\ (y < ydim a)%nat /\ (x < xdim a)%nat
    /\ wf a' /\ shape a' = shape a /\ dtype_of a' = dtype_of a
    /\ col a' y x = map (cast (dtype_of a)) vs
    /\ forall y' x', (y', x') <> (y, x) -> col a' y' x' = col a y' x'.
Proof.
  intros Hwf. unfold setitem_col.
  destruct (Nat.ltb_spec y (ydim a)); [|discriminate].
  destruct (Nat.ltb_spec x (xdim a)); [|discriminate]. simpl.
  destruct (broadcast_to (nframes a) vals) as [vs|e] eqn:Hb; [|discriminate].
  simpl. intros Ha'; injection Ha' as <-.
  pose proof (broadcast_to_length _ _ _ Hb) as Hlen.
  apply wf_spec in Hwf. destruct Hwf as [HN Hfr].
  rewrite Forall_forall in Hfr.
  exists vs. repeat split; auto.
  - (* well-formed *)
    apply wf_spec. unfold nframes, ydim, xdim in *; simpl. split.
    + rewrite length_map, length_combine. lia.
    + apply Forall_forall. intros fr' Hin. apply in_map_iff in Hin.
      destruct Hin as ([fr v] & <- & Hin).
      apply wf_frame_set, Hfr. eapply in_combine_l, Hin.
  - (* the written column *)
    unfold col; simpl. rewrite map_map.
    apply map_combine_snd; [lia|].
    intros fr v Hin. destruct (Hfr fr Hin) as [Hf1 Hf2].
    rewrite Forall_forall in Hf2.
    rewrite nth_list_set, Nat.eqb_refl. simpl.
    destruct (Nat.ltb_spec y (length fr)); [|lia].
    rewrite nth_list_set, Nat.eqb_refl. simpl.
    rewrite (Hf2 (nth y fr [])) by (apply nth_In; lia).
    destruct (Nat.ltb_spec x (xdim a)); [reflexivity|lia].
  - (* the other columns *)
    intros y' x' Hne. unfold col; simpl. rewrite map_map.
    apply map_combine_fst; [lia|].
    intros fr v Hin.
    rewrite nth_list_set.
    destruct (Nat.eqb_spec y' y) as [->|Hy]; simpl; [|reflexivity].
    destruct (Nat.ltb_spec y (length fr)); [|reflexivity].
    rewrite nth_list_set.
    destruct (Nat.eqb_spec x' x) as [->|Hx]; simpl; [congruence|reflexivity].
Qed.

Lemma setitem_col_ok a y x vals vs :
  (y < ydim a)%nat -> (x < xdim a)%nat ->
  broadcast_to (nframes a) vals = Ok vs ->
  exists a', setitem_col a y x vals = Ok a'.
Proof.
  intros Hy Hx Hb. unfold setitem_col.
  destruct (Nat.ltb_spec y (ydim a)); [|lia].
  destruct (Nat.ltb_spec x (xdim a)); [|lia]. simpl.
  rewrite Hb. simpl. eauto.
Qed.

Lemma wf_zeros shp dt : wf (zeros shp dt).
Proof.
  destruct shp as [[N H] W]. apply wf_spec.
  unfold zeros, nframes, ydim, xdim; simpl. split.
  - apply repeat_length.
  - apply Forall_forall. intros fr Hfr. apply repeat_spec in Hfr. subst fr.
    split; [apply repeat_length|].
    apply Forall_forall. intros row Hrow. apply repeat_spec in Hrow.
    subst row. apply repeat_length.
Qed.

Lemma shape_zeros shp dt : shape (zeros shp dt) = shp.
Proof. now destruct shp as [[N H] W]. Qed.

Lemma dtype_zeros shp dt : dtype_of (zeros shp dt) = dt.
Proof. now destruct shp as [[N H] W]. Qed.

(* ------------------------------------------------------------------ *)
(** ** Loops *)

Lemma for_each_app {A S} (l1 l2 : list A) (body : S -> A -> result S) s :
  for_each (l1 ++ l2) body s
  = let* s' := for_each l1 body s in for_each l2 body s'.
Proof.
  revert s. induction l1 as [|a l1 IH]; intros s; simpl; auto.
  destruct (body s a); simpl; auto.
Qed.

Lemma for_each_map {A B S} (g : A -> B) l (body : S -> B -> result S) s :
  for_each (map g l) body s = for_each l (fun s a => body s (g a)) s.
Proof.
  revert s. induction l as [|a l IH]; intros s; simpl; auto.
  destruct (body s (g a)); simpl; auto.
Qed.

(** Two nested loops run their body over the pairs, first index
    outermost. *)
Lemma for_each_nested {A B S} (xs : list A) (ys : list B)
    (f : S -> A -> B -> result S) s :
  for_each xs (fun s x => for_each ys (fun s y => f s x y) s) s
  = for_each (list_prod xs ys) (fun s p => f s (fst p) (snd p)) s.
Proof.
  revert s. induction xs as [|x xs IH]; intros s; simpl; auto.
  rewrite for_each_app, for_each_map. simpl.
  destruct (for_each ys _ s); simpl; auto.
Qed.

(** An invariant indexed by the list of iterations done so far. *)
Lemma for_each_inv {A S} (I : list A -> S -> Prop)
    (body : S -> A -> result S) l :
  (forall done a s s',
     I done s -> In a l -> body s a = Ok s' -> I (done ++ [a]) s') ->
  forall done s s',
    I done s -> for_each l body s = Ok s' -> I (done ++ l) s'.
Proof.
  induction l as [|a l IH]; intros Hstep done s s' HI Hrun; simpl in *.
  - injection Hrun as <-. now rewrite app_nil_r.
  - destruct (body s a) as [s1|e] eqn:Hb; simpl in Hrun; [|discriminate].
    replace (done ++ a :: l) with ((done ++ [a]) ++ l)
      by now rewrite <- app_assoc.
    apply IH with (s := s1); auto.
    + intros d b t t' Hd Hin. apply Hstep; simpl; auto.
    + apply Hstep with (s := s); simpl; auto.
Qed.

Lemma for_each_progress {A S} (I : list A -> S -> Prop)
    (body : S -> A -> result S) l :
  (forall done a s s',
     I done s -> In a l -> body s a = Ok s' -> I (done ++ [a]) s') ->
  (forall done a s, I done s -> In a l -> exists s', body s a = Ok s') ->
  forall done s, I done s -> exists s', for_each l body s = Ok s'.
Proof.
  induction l as [|a l IH]; intros Hstep Hprog done s HI; simpl.
  - eauto.
  - destruct (Hprog done a s HI) as [s1 Hb]; [now left|].
    rewrite Hb. simpl.
    apply IH with (done := done ++ [a]).
    + intros d b t t' Hd Hin. apply Hstep; simpl; auto.
    + intros d b t Hd Hin. apply Hprog with (done := d); simpl; auto.
    + apply Hstep with (s := s); simpl; auto.
Qed.

(* ------------------------------------------------------------------ *)
(** ** The pixel loop on array values *)

Lemma progress_ok Npixels yd x y :
  (0 < Npixels)%nat -> progress Npixels yd x y = Ok tt.
Proof.
  intros Hpos. unfold progress.
  destruct (Nat.ltb_spec Npixels 10).
  - destruct (Nat.eqb_spec Npixels 0); [lia|reflexivity].
  - destruct (Nat.eqb_spec (Npixels / 10) 0) as [E|E]; [|reflexivity].
    apply Nat.div_small_iff in E; lia.
Qed.

Section PixelLoop.

Variables (periods : list Q) (dt : Q) (T_c L : option Q) (mv : ndarray).

Lemma nframes_output o : output_for mv o -> nframes o = nframes mv.
Proof. intros (_ & Hs & _). unfold nframes. now rewrite Hs. Qed.

Lemma ydim_output o : output_for mv o -> ydim o = ydim mv.
Proof. intros (_ & Hs & _). unfold ydim. now rewrite Hs. Qed.

Lemma xdim_output o : output_for mv o -> xdim o = xdim mv.
Proof. intros (_ & Hs & _). unfold xdim. now rewrite Hs. Qed.

(** Writing one column into an output array. *)
Lemma write_output o y x vals o' :
  output_for mv o -> setitem_col o y x vals = Ok o' ->
  output_for mv o'
  /\ stored (nframes mv) vals = Ok (col o' y x)
  /\ forall y' x', (y', x') <> (y, x) -> col o' y' x' = col o y' x'.
Proof.
  intros Ho Hset. pose proof (nframes_output _ Ho) as HN.
  destruct Ho as (Hwf & Hs & Hd).
  destruct (setitem_col_spec _ _ _ _ _ Hwf Hset)
    as (vs & Hb & Hy & Hx & Hwf' & Hs' & Hd' & Hc & Hother).
  repeat split; auto; try congruence.
  unfold stored. rewrite <- HN, Hb. simpl. now rewrite Hc, Hd.
Qed.

Lemma pixel_step_inv done o x y o' :
  loop_inv periods dt T_c L mv done o -> (x < xdim mv)%nat -> (y < ydim mv)%nat ->
  pixel_step periods mv dt T_c L (ydim mv * xdim mv) (ydim mv) o x y = Ok o' ->
  loop_inv periods dt T_c L mv (done ++ [(x, y)]) o'.
Proof.
  intros Hinv Hx Hy Hstep.
  destruct o as [[[ph pe] po] am]. destruct Hinv as (H1 & H2 & H3 & H4 & Hf).
  simpl in H1, H2, H3, H4.
  unfold pixel_step in Hstep.
  rewrite progress_ok in Hstep by nia. simpl in Hstep.
  rewrite getitem_col_ok in Hstep by auto. simpl in Hstep.
  destruct (transform_pixel periods dt T_c L (col mv y x))
    as [[[[phases rp] pw] amp]|e] eqn:Hpix; [|discriminate].
  simpl in Hstep.
  destruct (setitem_col ph y x phases) as [ph'|e] eqn:E1; [|discriminate].
  destruct (setitem_col pe y x rp) as [pe'|e] eqn:E2; [|discriminate].
  destruct (setitem_col po y x pw) as [po'|e] eqn:E3; [|discriminate].
  destruct (setitem_col am y x amp) as [am'|e] eqn:E4; [|discriminate].
  simpl in Hstep. injection Hstep as <-.
  destruct (write_output _ _ _ _ _ H1 E1) as (O1 & S1 & K1).
  destruct (write_output _ _ _ _ _ H2 E2) as (O2 & S2 & K2).
  destruct (write_output _ _ _ _ _ H3 E3) as (O3 & S3 & K3).
  destruct (write_output _ _ _ _ _ H4 E4) as (O4 & S4 & K4).
  unfold loop_inv; simpl. do 4 (split; [assumption|]).
  intros x' y' Hx' Hy' Hin.
  destruct (Nat.eq_dec x' x) as [->|Nx]; [destruct (Nat.eq_dec y' y) as [->|Ny]|].
  - unfold pixel_cols. rewrite Hpix. simpl.
    rewrite S1, S2, S3, S4. reflexivity.
  - rewrite K1, K2, K3, K4 by congruence.
    apply Hf; auto. apply in_app_or in Hin. destruct Hin as [Hin|[Hin|[]]]; auto.
    congruence.
  - rewrite K1, K2, K3, K4 by congruence.
    apply Hf; auto. apply in_app_or in Hin. destruct Hin as [Hin|[Hin|[]]]; auto.
    congruence.
Qed.

Lemma pixel_step_progress done o x y c :
  loop_inv periods dt T_c L mv done o -> (x < xdim mv)%nat -> (y < ydim mv)%nat ->
  pixel_cols periods dt T_c L (nframes mv) (col mv y x) = Ok c ->
  exists o',
    pixel_step periods mv dt T_c L (ydim mv * xdim mv) (ydim mv) o x y = Ok o'.
Proof.
  intros Hinv Hx Hy Hc.
  destruct o as [[[ph pe] po] am]. destruct Hinv as (H1 & H2 & H3 & H4 & Hf).
  simpl in H1, H2, H3, H4.
  unfold pixel_step.
  rewrite progress_ok by nia. simpl.
  rewrite getitem_col_ok by auto. simpl.
  unfold pixel_cols in Hc.
  destruct (transform_pixel periods dt T_c L (col mv y x))
    as [[[[phases rp] pw] amp]|e] eqn:Hpix; [|discriminate].
  simpl in *. unfold stored in Hc.
  destruct (broadcast_to (nframes mv) phases) as [v1|] eqn:B1; [|discriminate].
  destruct (broadcast_to (nframes mv) rp) as [v2|] eqn:B2; [|discriminate].
  destruct (broadcast_to (nframes mv) pw) as [v3|] eqn:B3; [|discriminate].
  destruct (broadcast_to (nframes mv) amp) as [v4|] eqn:B4; [|discriminate].
  rewrite <- (nframes_output _ H1) in B1. rewrite <- (nframes_output _ H2) in B2.
  rewrite <- (nframes_output _ H3) in B3. rewrite <- (nframes_output _ H4) in B4.
  destruct (setitem_col_ok ph y x phases) with (vs := v1) as [ph' E1]; auto;
    try (rewrite ?(ydim_output _ H1), ?(xdim_output _ H1); assumption).
  destruct (setitem_col_ok pe y x rp) with (vs := v2) as [pe' E2]; auto;
    try (rewrite ?(ydim_output _ H2), ?(xdim_output _ H2); assumption).
  destruct (setitem_col_ok po y x pw) with (vs := v3) as [po' E3]; auto;
    try (rewrite ?(ydim_output _ H3), ?(xdim_output _ H3); assumption).
  destruct (setitem_col_ok am y x amp) with (vs := v4) as [am' E4]; auto;
    try (rewrite ?(ydim_output _ H4), ?(xdim_output _ H4); assumption).
  rewrite E1, E2, E3, E4. simpl. eauto.
Qed.

End PixelLoop.

Section LoopSpec.

Variables (periods : list Q) (dt : Q) (T_c L : option Q) (mv : ndarray).

Let z := zeros (shape mv) Float32.

Lemma output_zeros : output_for mv z.
Proof.
  subst z. repeat split.
  - apply wf_zeros.
  - apply shape_zeros.
  - apply dtype_zeros.
Qed.

Lemma loop_inv_init : loop_inv periods dt T_c L mv [] (z, z, z, z).
Proof.
  pose proof output_zeros. unfold loop_inv; simpl.
  do 4 (split; [assumption|]). intros x y _ _ [].
Qed.

Lemma in_pixels x y :
  In (x, y) (list_prod (range (xdim mv)) (range (ydim mv)))
  <-> (x < xdim mv)%nat /\ (y < ydim mv)%nat.
Proof.
  unfold range. rewrite in_prod_iff, !in_seq. lia.
Qed.

Lemma ridge_movies_unique o o' :
  ridge_movies periods dt T_c L mv o -> ridge_movies periods dt T_c L mv o' ->
  o = o'.
Proof.
  destruct o as [[[ph pe] po] am], o' as [[[ph' pe'] po'] am'].
  intros (H1 & H2 & H3 & H4 & Hf) (H1' & H2' & H3' & H4' & Hf').
  assert (Hcols : forall y x, (y < ydim mv)%nat -> (x < xdim mv)%nat ->
            col ph y x = col ph' y x /\ col pe y x = col pe' y x
            /\ col po y x = col po' y x /\ col am y x = col am' y x).
  { intros y x Hy Hx.
    pose proof (Hf x y Hx Hy I) as E. rewrite (Hf' x y Hx Hy I) in E.
    injection E as -> -> -> ->. auto. }
  assert (Hext : forall a b, output_for mv a -> output_for mv b ->
            (forall y x, (y < ydim mv)%nat -> (x < xdim mv)%nat ->
               col a y x = col b y x) -> a = b).
  { intros a b Ha Hb Hc.
    pose proof (ydim_output _ _ Ha). pose proof (xdim_output _ _ Ha).
    destruct Ha as (Wa & Sa & Da), Hb as (Wb & Sb & Db).
    apply ndarray_ext; auto; try congruence.
    intros y x Hy Hx. apply Hc; lia. }
  f_equal; [f_equal; [f_equal|]|]; apply Hext; auto;
    intros y x Hy Hx; apply (Hcols y x Hy Hx).
Qed.

Lemma pixel_loop_value_sound o :
  pixel_loop_value periods mv dt T_c L (z, z, z, z) = Ok o ->
  ridge_movies periods dt T_c L mv o.
Proof.
  unfold pixel_loop_value. rewrite for_each_nested. intros Hrun.
  apply (for_each_inv (loop_inv periods dt T_c L mv)) with (done := [])
    in Hrun.
  - destruct o as [[[ph pe] po] am].
    destruct Hrun as (H1 & H2 & H3 & H4 & Hf). simpl in *.
    do 4 (split; [assumption|]).
    intros x y Hx Hy _. apply Hf; auto. apply in_pixels. auto.
  - intros done [x y] s s' Hinv Hin Hstep. apply in_pixels in Hin.
    simpl in Hstep. eapply pixel_step_inv; eauto; tauto.
  - apply loop_inv_init.
Qed.

Lemma ridge_movies_pixels_ok o :
  ridge_movies periods dt T_c L mv o -> pixels_ok periods dt T_c L mv.
Proof.
  destruct o as [[[ph pe] po] am]. intros (_ & _ & _ & _ & Hf) x y Hx Hy.
  eexists. apply Hf; auto.
Qed.

Lemma pixel_loop_value_total :
  pixels_ok periods dt T_c L mv ->
  exists o, pixel_loop_value periods mv dt T_c L (z, z, z, z) = Ok o.
Proof.
  intros Hok. unfold pixel_loop_value. rewrite for_each_nested.
  apply (for_each_progress (loop_inv periods dt T_c L mv)) with (done := []).
  - intros done [x y] s s' Hinv Hin Hstep. apply in_pixels in Hin.
    simpl in Hstep. eapply pixel_step_inv; eauto; tauto.
  - intros done [x y] s Hinv Hin. apply in_pixels in Hin. simpl.
    destruct (Hok x y) as [c Hc]; try tauto.
    eapply pixel_step_progress; eauto; tauto.
  - apply loop_inv_init.
Qed.

Lemma ridge_movies_exists :
  pixels_ok periods dt T_c L mv -> exists o, ridge_movies periods dt T_c L mv o.
Proof.
  intros Hok. destruct (pixel_loop_value_total Hok) as [o Ho].
  exists o. now apply pixel_loop_value_sound.
Qed.

Lemma pixel_loop_value_complete o :
  ridge_movies periods dt T_c L mv o ->
  pixel_loop_value periods mv dt T_c L (z, z, z, z) = Ok o.
Proof.
  intros Ho.
  destruct (pixel_loop_value_total (ridge_movies_pixels_ok _ Ho)) as [o' Ho'].
  rewrite Ho'. f_equal.
  apply ridge_movies_unique; auto. now apply pixel_loop_value_sound.
Qed.

End LoopSpec.

(** [transform_stack] on array values yields exactly the four movies that
    carry, at every pixel, the output columns of that pixel's series. *)
Lemma transform_stack_value_spec mv dt Tmin Tmax nT T_c L o :
  transform_stack_value mv dt Tmin Tmax nT T_c L = Ok o <->
  exists periods,
    linspace Tmin Tmax nT = Ok periods
    /\ ridge_movies periods dt T_c L mv o.
Proof.
  unfold transform_stack_value. split.
  - destruct (linspace Tmin Tmax nT) as [periods|e]; simpl; [|discriminate].
    intros H. exists periods. split; auto.
    now apply pixel_loop_value_sound.
  - intros (periods & -> & H). simpl.
    now apply pixel_loop_value_complete.
Qed.

(* ------------------------------------------------------------------ *)
(** ** The store version computes the value version *)

Lemma nth_error_app_offset {A} (h l : list A) i :
  nth_error (h ++ l) (length h + i) = nth_error l i.
Proof.
  rewrite nth_error_app2 by lia. f_equal. lia.
Qed.

Lemma list_set_app_offset {A} (h l : list A) i v :
  list_set (h ++ l) (length h + i) v = h ++ list_set l i v.
Proof.
  induction h as [|a h IH]; simpl; auto. now rewrite IH.
Qed.

Lemma read_col_app (h l : store) movie mv y x :
  nth_error h movie = Some mv ->
  read_col movie y x (h ++ l)
  = match getitem_col mv y x with
    | Ok v => Ok (v, h ++ l)
    | Err e => Err e
    end.
Proof.
  intros Hmv. unfold read_col, mbind, load, deref, lift.
  rewrite nth_error_app1 by (apply nth_error_Some; congruence).
  rewrite Hmv. reflexivity.
Qed.

Lemma write_col_app (h l : store) i a y x vals :
  nth_error l i = Some a ->
  write_col (length h + i) y x vals (h ++ l)
  = match setitem_col a y x vals with
    | Ok a' => Ok (tt, h ++ list_set l i a')
    | Err e => Err e
    end.
Proof.
  intros Ha. unfold write_col, mbind, load, deref, lift, put.
  rewrite nth_error_app_offset, Ha.
  destruct (setitem_col a y x vals) as [a'|e]; auto.
  assert (Hi : (i < length l)%nat) by (apply nth_error_Some; congruence).
  destruct (Nat.ltb_spec (length h + i) (length (h ++ l))) as [_|Hge].
  - now rewrite list_set_app_offset.
  - rewrite length_app in Hge. lia.
Qed.

(** A loop over statements against a loop over values, for a store that is
    a function of the loop state. *)
Lemma for_sim {A S} (embed : S -> store) (bs : A -> M unit)
    (bv : S -> A -> result S) l :
  (forall a s, bs a (embed s)
               = match bv s a with
                 | Ok s' => Ok (tt, embed s')
                 | Err e => Err e
                 end) ->
  forall s, for_ l bs (embed s)
            = match for_each l bv s with
              | Ok s' => Ok (tt, embed s')
              | Err e => Err e
              end.
Proof.
  intros Hb. induction l as [|a l IH]; intros s; simpl; auto.
  unfold mbind. rewrite Hb.
  destruct (bv s a) as [s'|e]; simpl; auto.
Qed.

Lemma pixel_body_store h movie mv periods dt T_c L Npixels yd o x y :
  nth_error h movie = Some mv ->
  (lift (progress Npixels yd x y) ;;;
   input_vec <- read_col movie y x ;;
   r <- lift (transform_pixel periods dt T_c L input_vec) ;;
   let '(phases, ridge_periods, powers, amplitudes) := r in
   write_col (length h + 1) y x phases ;;;
   write_col (length h + 0) y x ridge_periods ;;;
   write_col (length h + 2) y x powers ;;;
   write_col (length h + 3) y x amplitudes) (behind h o)
  = match pixel_step periods mv dt T_c L Npixels yd o x y with
    | Ok o' => Ok (tt, behind h o')
    | Err e => Err e
    end.
Proof.
  intros Hmv. destruct o as [[[ph pe] po] am].
  unfold pixel_step, behind, mbind.
  unfold lift at 1. destruct (progress Npixels yd x y); simpl; auto.
  rewrite read_col_app with (mv := mv) by exact Hmv.
  destruct (getitem_col mv y x) as [v|e]; simpl; auto.
  unfold lift at 1.
  destruct (transform_pixel periods dt T_c L v)
    as [[[[phases rp] pw] amp]|e]; simpl; auto.
  rewrite write_col_app with (a := ph) by reflexivity.
  destruct (setitem_col ph y x phases) as [ph'|e]; simpl; auto.
  rewrite write_col_app with (a := pe) by reflexivity.
  destruct (setitem_col pe y x rp) as [pe'|e]; simpl; auto.
  rewrite write_col_app with (a := po) by reflexivity.
  destruct (setitem_col po y x pw) as [po'|e]; simpl; auto.
  rewrite write_col_app with (a := am) by reflexivity.
  destruct (setitem_col am y x amp) as [am'|e]; simpl; auto.
Qed.

Lemma pixel_loop_store h movie mv periods dt T_c L o :
  nth_error h movie = Some mv ->
  pixel_loop periods movie dt T_c L (ydim mv) (xdim mv)
    (length h + 1) (length h + 0) (length h + 2) (length h + 3) (behind h o)
  = match pixel_loop_value periods mv dt T_c L o with
    | Ok o' => Ok (tt, behind h o')
    | Err e => Err e
    end.
Proof.
  intros Hmv. unfold pixel_loop, pixel_loop_value.
  apply (for_sim (behind h)). intros x s.
  apply (for_sim (behind h)). intros y s'.
  now apply pixel_body_store.
Qed.

(** [transform_stack] leaves the caller's store as it was and appends the
    four output arrays of the value version; the references it returns are
    those of the appended arrays. *)
Lemma transform_stack_store h movie mv dt Tmin Tmax nT T_c L :
  nth_error h movie = Some mv ->
  transform_stack movie dt Tmin Tmax nT T_c L h
  = match transform_stack_value mv dt Tmin Tmax nT T_c L with
    | Ok o =>
        Ok ((length h + 1, length h + 0, length h + 2, length h + 3)%nat,
            behind h o)
    | Err e => Err e
    end.
Proof.
  intros Hmv. unfold transform_stack, transform_stack_value.
  unfold mbind at 1. unfold lift at 1.
  destruct (linspace Tmin Tmax nT) as [periods|e]; simpl; auto.
  unfold mbind at 1. unfold load, deref, lift. rewrite Hmv.
  unfold np_zeros, alloc, mbind at 1 2 3 4.
  rewrite !length_app. simpl length.
  set (z := zeros (shape mv) Float32).
  replace ((((h ++ [z]) ++ [z]) ++ [z]) ++ [z]) with (behind h (z, z, z, z))
    by (unfold behind; now rewrite <- !app_assoc).
  unfold mbind.
  replace (length h + 1 + 1)%nat with (length h + 2)%nat by lia.
  replace (length h + 2 + 1)%nat with (length h + 3)%nat by lia.
  replace (length h) with (length h + 0)%nat at 2 by lia.
  rewrite pixel_loop_store with (mv := mv) by exact Hmv.
  destruct (pixel_loop_value periods mv dt T_c L (z, z, z, z)); auto.
  unfold mret. now rewrite Nat.add_0_r.
Qed.

Lemma call_transform_stack h movie mv dt Tmin Tmax nT T_c L :
  nth_error h movie = Some mv ->
  call (transform_stack movie dt Tmin Tmax nT T_c L) h
  = transform_stack_value mv dt Tmin Tmax nT T_c L.
Proof.
  intros Hmv. unfold call. rewrite transform_stack_store with (mv := mv) by auto.
  destruct (transform_stack_value mv dt Tmin Tmax nT T_c L)
    as [[[[ph pe] po] am]|e]; auto.
  unfold behind, deref. rewrite !nth_error_app_offset. reflexivity.
Qed.

Lemma worker_value dt Tmin Tmax nT T_c L chunk :
  worker dt Tmin Tmax nT T_c L chunk
  = transform_stack_value chunk dt Tmin Tmax nT T_c L.
Proof. unfold worker. now apply call_transform_stack. Qed.

(* ------------------------------------------------------------------ *)
(** ** Splitting along the row axis *)

Lemma sum_app l1 l2 : sum (l1 ++ l2) = (sum l1 + sum l2)%nat.
Proof. induction l1; simpl; lia. Qed.

Lemma sum_repeat v n : sum (repeat v n) = (n * v)%nat.
Proof. induction n; simpl; lia. Qed.

Lemma section_sizes_eq H n : section_sizes H n = 0%nat :: chunk_sizes H n.
Proof. reflexivity. Qed.

Lemma length_chunk_sizes H n : (0 < n)%nat -> length (chunk_sizes H n) = n.
Proof.
  intros Hn. unfold chunk_sizes. rewrite length_app, !repeat_length.
  pose proof (Nat.mod_upper_bound H n). lia.
Qed.

Lemma sum_chunk_sizes H n : (0 < n)%nat -> sum (chunk_sizes H n) = H.
Proof.
  intros Hn. unfold chunk_sizes. rewrite sum_app, !sum_repeat.
  pose proof (Nat.mod_upper_bound H n).
  pose proof (Nat.div_mod_eq H n). nia.
Qed.

Lemma chunk_sizes_near H n s :
  In s (chunk_sizes H n) -> s = (H / n)%nat \/ s = (H / n + 1)%nat.
Proof.
  unfold chunk_sizes. intros Hin. apply in_app_or in Hin.
  destruct Hin as [Hin|Hin]; apply repeat_spec in Hin; auto.
Qed.

(** numpy's slices between consecutive division points are the slices cut
    one size after the other. *)
Lemma slices_div_points a st sizes :
  map (fun i => slice_rows a (nth i (st :: cumsum_from st sizes) 0%nat)
                             (nth (i + 1) (st :: cumsum_from st sizes) 0%nat))
      (seq 0 (length sizes))
  = slices a st sizes.
Proof.
  revert st. induction sizes as [|sz sizes IH]; intros st; simpl; auto.
  f_equal. rewrite <- seq_shift, map_map. rewrite <- IH.
  apply map_ext. intros i. reflexivity.
Qed.

Lemma array_split_slices a n :
  (0 < n)%Z ->
  array_split a n = Ok (slices a 0 (chunk_sizes (ydim a) (Z.to_nat n))).
Proof.
  intros Hn. unfold array_split.
  destruct (Z.leb_spec n 0); [lia|]. f_equal.
  rewrite section_sizes_eq. unfold cumsum. simpl cumsum_from.
  rewrite <- slices_div_points, length_chunk_sizes by lia.
  reflexivity.
Qed.

Lemma length_slices a st sizes : length (slices a st sizes) = length sizes.
Proof. revert st. induction sizes; intros st; simpl; auto. Qed.

Lemma map_ydim_slices a st sizes :
  (st + sum sizes <= ydim a)%nat -> map ydim (slices a st sizes) = sizes.
Proof.
  revert st. induction sizes as [|sz sizes IH]; intros st Hb; simpl in *; auto.
  f_equal.
  - unfold ydim at 1; simpl. lia.
  - apply IH. lia.
Qed.

Lemma in_firstn {A} n (l : list A) v : In v (firstn n l) -> In v l.
Proof.
  intros H. rewrite <- (firstn_skipn n l). apply in_or_app. now left.
Qed.

Lemma in_skipn {A} n (l : list A) v : In v (skipn n l) -> In v l.
Proof.
  intros H. rewrite <- (firstn_skipn n l). apply in_or_app. now right.
Qed.

Lemma wf_slice_rows a st en :
  wf a -> (st <= en <= ydim a)%nat -> wf (slice_rows a st en).
Proof.
  intros Hwf Hb. apply wf_spec in Hwf. destruct Hwf as [HN Hfr].
  apply wf_spec. unfold slice_rows, nframes, ydim, xdim in *; simpl. split.
  - now rewrite length_map.
  - rewrite Forall_forall in *. intros fr' Hin. apply in_map_iff in Hin.
    destruct Hin as (fr & <- & Hin). destruct (Hfr fr Hin) as [H1 H2].
    split.
    + rewrite length_firstn, length_skipn. lia.
    + rewrite Forall_forall in *. intros row Hrow.
      apply H2. eapply in_skipn, in_firstn, Hrow.
Qed.

Lemma wf_slices a st sizes :
  wf a -> (st + sum sizes <= ydim a)%nat -> Forall wf (slices a st sizes).
Proof.
  intros Hwf. revert st.
  induction sizes as [|sz sizes IH]; intros st Hb; simpl in *; constructor.
  - apply wf_slice_rows; auto. lia.
  - apply IH. lia.
Qed.

Lemma promote_same d : promote d d = d.
Proof. now destruct d. Qed.

Lemma firstn_add {A} (l : list A) a b :
  firstn a l ++ firstn b (skipn a l) = firstn (a + b) l.
Proof.
  revert l. induction a as [|a IH]; intros [|v l]; simpl; auto.
  - now rewrite firstn_nil.
  - now rewrite IH.
Qed.

Lemma map_combine_same {A B C D} (f : B * C -> D) (g : A -> B) (h : A -> C) l :
  map f (combine (map g l) (map h l)) = map (fun a => f (g a, h a)) l.
Proof. induction l; simpl; congruence. Qed.

(** Two adjacent slices join to the slice over both ranges. *)
Lemma append_slices a st mid en :
  (st <= mid <= en)%nat -> (en <= ydim a)%nat ->
  append_rows (slice_rows a st mid) (slice_rows a mid en)
  = Ok (slice_rows a st en).
Proof.
  intros Hb He. unfold append_rows, slice_rows, nframes, ydim, xdim in *.
  simpl. rewrite !Nat.eqb_refl. simpl. rewrite promote_same.
  f_equal. f_equal.
  - f_equal. f_equal. lia.
  - rewrite map_combine_same. apply map_ext. intros fr.
    replace (skipn mid fr) with (skipn (mid - st) (skipn st fr))
      by (rewrite skipn_skipn; f_equal; lia).
    rewrite firstn_add. f_equal. lia.
Qed.

Lemma concatenate_slices a st sizes :
  sizes <> [] -> (st + sum sizes <= ydim a)%nat ->
  concatenate (slices a st sizes) = Ok (slice_rows a st (st + sum sizes)).
Proof.
  revert st. induction sizes as [|sz sizes IH]; intros st Hne Hb;
    [congruence|].
  destruct sizes as [|sz' sizes].
  - simpl. now rewrite Nat.add_0_r.
  - change (slices a st (sz :: sz' :: sizes))
      with (slice_rows a st (st + sz) :: slices a (st + sz) (sz' :: sizes)).
    change (sum (sz :: sz' :: sizes)) with (sz + sum (sz' :: sizes))%nat in *.
    change (concatenate (?c :: slices a ?s (sz' :: sizes)))
      with (let* b := concatenate (slices a s (sz' :: sizes)) in
            append_rows c b).
    rewrite IH by (try discriminate; lia). simpl rbind.
    simpl sum in *.
    rewrite append_slices by lia. f_equal. f_equal. lia.
Qed.

Lemma slice_rows_all a : wf a -> slice_rows a 0 (ydim a) = a.
Proof.
  intros Hwf. apply wf_spec in Hwf. destruct Hwf as [HN Hfr].
  destruct a as [[[N H] W] d fr]. unfold slice_rows, nframes, ydim, xdim in *.
  simpl in *. f_equal.
  - f_equal. f_equal. lia.
  - rewrite <- (map_id fr) at 2. apply map_ext_in. intros f Hf.
    rewrite Forall_forall in Hfr. destruct (Hfr f Hf) as [H1 _].
    rewrite Nat.sub_0_r, <- H1. apply firstn_all.
Qed.

(** Splitting a movie and joining the slices again gives the movie. *)
Lemma concatenate_array_split a n :
  wf a -> (0 < n)%Z ->
  concatenate (slices a 0 (chunk_sizes (ydim a) (Z.to_nat n))) = Ok a.
Proof.
  intros Hwf Hn.
  assert (Hpos : (0 < Z.to_nat n)%nat) by lia.
  rewrite concatenate_slices.
  - rewrite sum_chunk_sizes by lia. simpl. now rewrite slice_rows_all.
  - intros E. apply (f_equal (@length nat)) in E.
    rewrite length_chunk_sizes in E by lia. simpl in E. lia.
  - rewrite sum_chunk_sizes by lia. simpl. lia.
Qed.

(* ------------------------------------------------------------------ *)
(** ** Joining along the row axis *)

Lemma append_rows_spec a b ab :
  wf a -> wf b -> append_rows a b = Ok ab ->
  wf ab
  /\ nframes b = nframes a /\ xdim b = xdim a
  /\ shape ab = (nframes a, (ydim a + ydim b)%nat, xdim a)
  /\ dtype_of ab = promote (dtype_of a) (dtype_of b)
  /\ forall y x,
       col ab y x
       = if (y <? ydim a)%nat then col a y x else col b (y - ydim a) x.
Proof.
  intros Ha Hb. unfold append_rows.
  destruct (Nat.eqb_spec (nframes a) (nframes b)) as [EN|]; [|discriminate].
  destruct (Nat.eqb_spec (xdim a) (xdim b)) as [EW|]; [|discriminate].
  simpl. intros H; injection H as <-.
  apply wf_spec in Ha, Hb. destruct Ha as [Ha1 Ha2], Hb as [Hb1 Hb2].
  rewrite Forall_forall in Ha2, Hb2.
  repeat split; auto.
  - apply wf_spec. unfold nframes, ydim, xdim in *; simpl. split.
    + rewrite length_map, length_combine. lia.
    + apply Forall_forall. intros fr Hin. apply in_map_iff in Hin.
      destruct Hin as ([fa fb] & <- & Hin).
      destruct (Ha2 fa (in_combine_l _ _ _ _ Hin)) as [A1 A2].
      destruct (Hb2 fb (in_combine_r _ _ _ _ Hin)) as [B1 B2].
      split.
      * rewrite length_app. lia.
      * apply Forall_app. split; auto. now rewrite EW.
  - intros y x. unfold col; simpl. rewrite map_map.
    destruct (Nat.ltb_spec y (ydim a)) as [Hy|Hy].
    + apply map_combine_fst; [lia|].
      intros fa fb Hin. destruct (Ha2 fa Hin) as [A1 _].
      rewrite app_nth1 by lia. reflexivity.
    + apply map_combine_snd; [lia|].
      intros fa fb Hin. destruct (Ha2 fa Hin) as [A1 _].
      rewrite app_nth2 by lia. now rewrite A1.
Qed.

Lemma append_rows_ok a b :
  nframes b = nframes a -> xdim b = xdim a ->
  exists ab, append_rows a b = Ok ab.
Proof.
  intros EN EW. unfold append_rows. rewrite EN, EW, !Nat.eqb_refl.
  simpl. eauto.
Qed.

Lemma wf_concatenate l a :
  Forall wf l -> concatenate l = Ok a -> wf a.
Proof.
  revert a. induction l as [|c l IH]; intros a Hwf Hc; [discriminate|].
  inversion Hwf as [|? ? Hc1 Hl]; subst.
  destruct l as [|c' l].
  - simpl in Hc. now injection Hc as <-.
  - change (concatenate (c :: c' :: l))
      with (let* b := concatenate (c' :: l) in append_rows c b) in Hc.
    destruct (concatenate (c' :: l)) as [b|e] eqn:Hb; [|discriminate].
    simpl in Hc. apply (append_rows_spec c b a); auto.
Qed.

Lemma concatenate_cons a l :
  l <> [] ->
  concatenate (a :: l) = let* b := concatenate l in append_rows a b.
Proof. destruct l; [congruence|reflexivity]. Qed.

Lemma map_result_Forall2 {A B} (f : A -> result B) l os :
  map_result f l = Ok os <-> Forall2 (fun a b => f a = Ok b) l os.
Proof.
  revert os. induction l as [|a l IH]; intros os; simpl.
  - split.
    + intros H; injection H as <-. constructor.
    + intros H; now inversion H.
  - split.
    + destruct (f a) as [b|e] eqn:Hb; simpl; [|discriminate].
      destruct (map_result f l) as [bs|e]; simpl; [|discriminate].
      intros H; injection H as <-. constructor; auto. now apply IH.
    + intros H; inversion H as [|? b ? bs Hb Hl]; subst.
      rewrite Hb. simpl. apply IH in Hl. rewrite Hl. reflexivity.
Qed.

Section Join.

Variables (periods : list Q) (dt : Q) (T_c L : option Q).

Abbreviation RM := (ridge_movies periods dt T_c L).
Abbreviation POK := (pixels_ok periods dt T_c L).

(** Joining the output arrays of two movies gives an output array of the
    joined movie. *)
Lemma output_append a b ab oa ob :
  wf a -> wf b -> append_rows a b = Ok ab ->
  output_for a oa -> output_for b ob ->
  exists o,
    append_rows oa ob = Ok o /\ output_for ab o
    /\ forall y x,
         col o y x
         = if (y <? ydim a)%nat then col oa y x else col ob (y - ydim a) x.
Proof.
  intros Ha Hb Hab Hoa Hob.
  destruct (append_rows_spec _ _ _ Ha Hb Hab) as (Wab & EN & EW & Sab & _).
  pose proof (nframes_output _ _ Hoa). pose proof (nframes_output _ _ Hob).
  pose proof (xdim_output _ _ Hoa). pose proof (xdim_output _ _ Hob).
  pose proof (ydim_output _ _ Hoa). pose proof (ydim_output _ _ Hob).
  destruct Hoa as (Woa & Soa & Doa), Hob as (Wob & Sob & Dob).
  destruct (append_rows_ok oa ob) as [o Ho]; try congruence.
  destruct (append_rows_spec _ _ _ Woa Wob Ho) as (Wo & _ & _ & So & Do & Hc).
  exists o. repeat split; auto.
  - rewrite So, Sab. congruence.
  - now rewrite Do, Doa, Dob.
  - intros y x. rewrite Hc. replace (ydim oa) with (ydim a) by congruence.
    reflexivity.
Qed.

Lemma join_movies a b ab oa ob :
  wf a -> wf b -> append_rows a b = Ok ab -> RM a oa -> RM b ob ->
  exists ph pe po am,
    append_rows (fst (fst (fst oa))) (fst (fst (fst ob))) = Ok ph
    /\ append_rows (snd (fst (fst oa))) (snd (fst (fst ob))) = Ok pe
    /\ append_rows (snd (fst oa)) (snd (fst ob)) = Ok po
    /\ append_rows (snd oa) (snd ob) = Ok am
    /\ RM ab (ph, pe, po, am).
Proof.
  intros Ha Hb Hab.
  destruct oa as [[[ph1 pe1] po1] am1], ob as [[[ph2 pe2] po2] am2].
  intros (A1 & A2 & A3 & A4 & Af) (B1 & B2 & B3 & B4 & Bf). simpl.
  destruct (output_append _ _ _ _ _ Ha Hb Hab A1 B1) as (ph & E1 & O1 & C1).
  destruct (output_append _ _ _ _ _ Ha Hb Hab A2 B2) as (pe & E2 & O2 & C2).
  destruct (output_append _ _ _ _ _ Ha Hb Hab A3 B3) as (po & E3 & O3 & C3).
  destruct (output_append _ _ _ _ _ Ha Hb Hab A4 B4) as (am & E4 & O4 & C4).
  exists ph, pe, po, am. do 4 (split; [assumption|]).
  do 4 (split; [assumption|]).
  destruct (append_rows_spec _ _ _ Ha Hb Hab) as (_ & EN & EW & Sab & _ & Hc).
  assert (HN : nframes ab = nframes a) by (unfold nframes; now rewrite Sab).
  assert (HW : xdim ab = xdim a) by (unfold xdim; now rewrite Sab).
  assert (HH : ydim ab = (ydim a + ydim b)%nat)
    by (unfold ydim at 1; now rewrite Sab).
  intros x y Hx Hy _. rewrite Hc, C1, C2, C3, C4, HN.
  destruct (Nat.ltb_spec y (ydim a)).
  - apply Af; auto. lia.
  - rewrite <- EN. apply Bf; auto; lia.
Qed.

Lemma split_pixels_ok a b ab :
  wf a -> wf b -> append_rows a b = Ok ab -> POK ab -> POK a /\ POK b.
Proof.
  intros Ha Hb Hab Hok.
  destruct (append_rows_spec _ _ _ Ha Hb Hab) as (_ & EN & EW & Sab & _ & Hc).
  assert (HN : nframes ab = nframes a) by (unfold nframes; now rewrite Sab).
  assert (HW : xdim ab = xdim a) by (unfold xdim; now rewrite Sab).
  assert (HH : ydim ab = (ydim a + ydim b)%nat)
    by (unfold ydim at 1; now rewrite Sab).
  split; intros x y Hx Hy.
  - destruct (Hok x y) as [c E]; try lia.
    rewrite Hc, HN in E. destruct (Nat.ltb_spec y (ydim a)); [|lia]. eauto.
  - destruct (Hok x (ydim a + y)%nat) as [c E]; try lia.
    rewrite Hc, HN in E.
    destruct (Nat.ltb_spec (ydim a + y) (ydim a)); [lia|].
    replace (ydim a + y - ydim a)%nat with y in E by lia.
    rewrite EN. eauto.
Qed.

Lemma concat4_cons o os ph pe po am :
  os <> [] -> concat4 os = Ok (ph, pe, po, am) ->
  concat4 (o :: os)
  = let* ph' := append_rows (fst (fst (fst o))) ph in
    let* pe' := append_rows (snd (fst (fst o))) pe in
    let* po' := append_rows (snd (fst o)) po in
    let* am' := append_rows (snd o) am in
    Ok (ph', pe', po', am').
Proof.
  intros Hne. unfold concat4.
  assert (Hm : forall f : movies -> ndarray, map f os <> []).
  { intros f E. destruct os; [congruence|discriminate]. }
  simpl map. rewrite !concatenate_cons by apply Hm.
  destruct (concatenate (map _ os)) as [a1|]; simpl; [|discriminate].
  destruct (concatenate (map (fun r => snd (fst (fst r))) os)) as [a2|];
    simpl; [|discriminate].
  destruct (concatenate (map (fun r => snd (fst r)) os)) as [a3|];
    simpl; [|discriminate].
  destruct (concatenate (map (fun r => snd r) os)) as [a4|];
    simpl; [|discriminate].
  intros H; injection H as -> -> -> ->. reflexivity.
Qed.

(** Joining the outputs of the slices gives the outputs of the joined
    movie. *)
Lemma join_all chunks : forall mv os,
  Forall wf chunks -> concatenate chunks = Ok mv ->
  Forall2 RM chunks os ->
  exists o, concat4 os = Ok o /\ RM mv o.
Proof.
  induction chunks as [|c chunks IH]; intros mv os Hwf Hcat Hrm;
    [discriminate|].
  inversion Hwf as [|? ? Wc Wl]; subst.
  inversion Hrm as [|? o1 ? os' R1 Rl]; subst.
  destruct chunks as [|c' chunks].
  - inversion Rl; subst. simpl in Hcat. injection Hcat as <-.
    exists o1. split; auto. now destruct o1 as [[[? ?] ?] ?].
  - rewrite concatenate_cons in Hcat by discriminate.
    destruct (concatenate (c' :: chunks)) as [b|e] eqn:Hb; [|discriminate].
    simpl in Hcat.
    destruct (IH b os' Wl eq_refl Rl) as ([[[ph pe] po] am] & Hc4 & Rb).
    pose proof (wf_concatenate _ _ Wl Hb) as Wb.
    destruct (join_movies _ _ _ _ _ Wc Wb Hcat R1 Rb)
      as (ph' & pe' & po' & am' & E1 & E2 & E3 & E4 & R).
    exists (ph', pe', po', am'). split; auto.
    rewrite concat4_cons with (ph := ph) (pe := pe) (po := po) (am := am);
      auto.
    + simpl in *. rewrite E1, E2, E3, E4. reflexivity.
    + inversion Rl; discriminate.
Qed.

Lemma split_all chunks : forall mv,
  Forall wf chunks -> concatenate chunks = Ok mv -> POK mv ->
  Forall (fun c => POK c) chunks.
Proof.
  induction chunks as [|c chunks IH]; intros mv Hwf Hcat Hok;
    [constructor|].
  inversion Hwf as [|? ? Wc Wl]; subst.
  destruct chunks as [|c' chunks].
  - simpl in Hcat. injection Hcat as <-. constructor; auto.
  - rewrite concatenate_cons in Hcat by discriminate.
    destruct (concatenate (c' :: chunks)) as [b|e] eqn:Hb; [|discriminate].
    simpl in Hcat.
    pose proof (wf_concatenate _ _ Wl Hb) as Wb.
    destruct (split_pixels_ok _ _ _ Wc Wb Hcat Hok) as [Hc Hbk].
    constructor; auto. apply (IH b); auto.
Qed.

End Join.

(* ------------------------------------------------------------------ *)
(** ** Slices in parallel against the whole movie *)

Lemma Forall2_impl_from {A B} (P Q : A -> B -> Prop) l1 l2 :
  (forall a b, P a b -> Q a b) -> Forall2 P l1 l2 -> Forall2 Q l1 l2.
Proof. intros H F. induction F; constructor; auto. Qed.

Lemma Forall_exists_Forall2 {A B} (P : A -> B -> Prop) l :
  Forall (fun a => exists b, P a b) l -> exists l', Forall2 P l l'.
Proof.
  induction 1 as [|a l [b Hb] _ [l' IH]].
  - exists []. constructor.
  - exists (b :: l'). now constructor.
Qed.

(** Transforming the slices of a movie one by one and joining the results
    is transforming the movie. *)
Lemma slices_value chunks mv dt Tmin Tmax nT T_c L o :
  Forall wf chunks -> concatenate chunks = Ok mv ->
  (let* os := map_result
                (fun c => transform_stack_value c dt Tmin Tmax nT T_c L)
                chunks in
   concat4 os) = Ok o
  <-> transform_stack_value mv dt Tmin Tmax nT T_c L = Ok o.
Proof.
  intros Hwf Hcat. split.
  - destruct (map_result _ chunks) as [os|e] eqn:Hos; [|discriminate].
    simpl. intros Hc4.
    apply map_result_Forall2 in Hos.
    assert (Hper : exists periods, linspace Tmin Tmax nT = Ok periods).
    { destruct Hos as [|c o1 ? ? H1 _]; [discriminate|].
      apply transform_stack_value_spec in H1.
      destruct H1 as (p & Hp & _). eauto. }
    destruct Hper as [periods Hper].
    assert (Hrm : Forall2 (ridge_movies periods dt T_c L) chunks os).
    { eapply Forall2_impl_from; [|exact Hos]. intros c oc Hc. simpl in Hc.
      apply transform_stack_value_spec in Hc.
      destruct Hc as (p & Hp & Hr). congruence. }
    destruct (join_all _ _ _ _ _ _ _ Hwf Hcat Hrm) as (o' & Ho' & Hr).
    apply transform_stack_value_spec. exists periods. split; auto.
    congruence.
  - intros Hmv. apply transform_stack_value_spec in Hmv.
    destruct Hmv as (periods & Hper & Hr).
    pose proof (ridge_movies_pixels_ok _ _ _ _ _ _ Hr) as Hok.
    pose proof (split_all _ _ _ _ _ _ Hwf Hcat Hok) as Hall.
    assert (Hex : exists os, Forall2 (ridge_movies periods dt T_c L) chunks os).
    { apply Forall_exists_Forall2. eapply Forall_impl; [|exact Hall].
      intros c Hc. now apply ridge_movies_exists. }
    destruct Hex as [os Hos].
    assert (Hmap : map_result
              (fun c => transform_stack_value c dt Tmin Tmax nT T_c L) chunks
            = Ok os).
    { apply map_result_Forall2. eapply Forall2_impl_from; [|exact Hos].
      intros c oc Hc. apply transform_stack_value_spec. eauto. }
    rewrite Hmap. simpl.
    destruct (join_all _ _ _ _ _ _ _ Hwf Hcat Hos) as (o' & Ho' & Hr').
    rewrite Ho'. f_equal. eapply ridge_movies_unique; eauto.
Qed.

Lemma map_result_ext {A B} (f g : A -> result B) l :
  (forall a, f a = g a) -> map_result f l = map_result g l.
Proof.
  intros H. induction l as [|a l IH]; simpl; auto. now rewrite H, IH.
Qed.

(** Without an over-request, [run_parallel] leaves the caller's store as it
    was and appends the four movies of the value version. *)
Lemma run_parallel_store h movie mv ncpu_avail n_cpu dt Tmin Tmax nT T_c L :
  nth_error h movie = Some mv -> (1 <= n_cpu <= ncpu_avail)%Z ->
  run_parallel ncpu_avail movie n_cpu dt Tmin Tmax nT T_c L h
  = match run_parallel_value mv n_cpu dt Tmin Tmax nT T_c L with
    | Ok (ph, pe, po, am) =>
        Ok ((length h + 0, length h + 1, length h + 2, length h + 3)%nat,
            h ++ [ph; pe; po; am])
    | Err e => Err e
    end.
Proof.
  intros Hmv Hn. unfold run_parallel, run_parallel_value.
  change (fstring run_parallel_scope ["ncpu_avail"]) with (Ok tt).
  change (fstring run_parallel_scope ["n_cpu"]) with (Ok tt).
  destruct (Z.ltb_spec ncpu_avail n_cpu); [lia|].
  cbv beta iota delta [mbind lift mret mp_Pool load deref].
  destruct (Z.ltb_spec n_cpu 1); [lia|].
  rewrite Hmv.
  destruct (array_split mv n_cpu) as [chunks|e]; simpl; auto.
  unfold starmap.
  rewrite (map_result_ext _ _ chunks (worker_value dt Tmin Tmax nT T_c L)).
  destruct (map_result _ chunks) as [os|e]; simpl; auto.
  unfold concat4, np_concatenate, mbind, lift, alloc, mret.
  destruct (concatenate (map _ os)) as [ph|e]; simpl; auto.
  destruct (concatenate (map (fun r => snd (fst (fst r))) os))
    as [pe|e]; simpl; auto.
  destruct (concatenate (map (fun r => snd (fst r)) os)) as [po|e];
    simpl; auto.
  destruct (concatenate (map (fun r => snd r) os)) as [am|e]; simpl; auto.
  rewrite !length_app. simpl. rewrite <- !app_assoc. simpl.
  rewrite Nat.add_0_r.
  replace (length h + 1 + 1)%nat with (length h + 2)%nat by lia.
  replace (length h + 2 + 1)%nat with (length h + 3)%nat by lia.
  reflexivity.
Qed.

Lemma call_run_parallel h movie mv ncpu_avail n_cpu dt Tmin Tmax nT T_c L :
  nth_error h movie = Some mv -> (1 <= n_cpu <= ncpu_avail)%Z ->
  call (run_parallel ncpu_avail movie n_cpu dt Tmin Tmax nT T_c L) h
  = run_parallel_value mv n_cpu dt Tmin Tmax nT T_c L.
Proof.
  intros Hmv Hn. unfold call.
  rewrite run_parallel_store with (mv := mv) by auto.
  destruct (run_parallel_value mv n_cpu dt Tmin Tmax nT T_c L)
    as [[[[ph pe] po] am]|e]; auto.
  unfold deref. rewrite !nth_error_app_offset. reflexivity.
Qed.

Lemma run_parallel_value_spec mv n_cpu dt Tmin Tmax nT T_c L o :
  wf mv -> (1 <= n_cpu)%Z ->
  run_parallel_value mv n_cpu dt Tmin Tmax nT T_c L = Ok o
  <-> transform_stack_value mv dt Tmin Tmax nT T_c L = Ok o.
Proof.
  intros Hwf Hn. unfold run_parallel_value.
  rewrite array_split_slices by lia. simpl rbind.
  apply slices_value.
  - apply wf_slices; auto. rewrite sum_chunk_sizes by lia. simpl. lia.
  - apply concatenate_array_split; auto. lia.
Qed.

(* ------------------------------------------------------------------ *)
(** * The period grid *)

Lemma linspace_ok start stop num :
  (0 <= num)%Z -> exists g, linspace start stop num = Ok g.
Proof.
  intros H. unfold linspace. destruct (Z.ltb_spec num 0); [lia|]. eauto.
Qed.



(* ------------------------------------------------------------------ *)
(** * The parallel path against the single call *)

(** C1. For a movie of shape (N, H, W) and a worker count [n_cpu] with
    [1 <= n_cpu <= H] that does not exceed the available capacity,
    [run_parallel] returns four movies exactly when a single
    [transform_stack] call on the whole movie does, and they are the same
    four arrays: the same shape, element type and value at every frame and
    pixel. *)
Theorem run_parallel_matches_transform_stack
    (h : store) (movie : ref) (mv : ndarray) (ncpu_avail n_cpu : Z)
    (dt Tmin Tmax : Q) (nT : Z) (T_c L : option Q) (o : movies) :
  nth_error h movie = Some mv -> wf mv ->
  (1 <= n_cpu <= Z.of_nat (ydim mv))%Z -> (n_cpu <= ncpu_avail)%Z ->
  call (run_parallel ncpu_avail movie n_cpu dt Tmin Tmax nT T_c L) h = Ok o
  <-> call (transform_stack movie dt Tmin Tmax nT T_c L) h = Ok o.
Proof.
  intros Hmv Hwf Hn Havail.
  rewrite call_run_parallel with (mv := mv) by (auto; lia).
  rewrite call_transform_stack with (mv := mv) by auto.
  apply run_parallel_value_spec; auto. lia.
Qed.

(** The name in the warning message is not bound. *)
Lemma ncpu_req_unbound :
  fstring run_parallel_scope ["ncpu_req"; "ncpu_avail"]
  = Err (NameError "ncpu_req").
Proof. reflexivity. Qed.

Lemma run_parallel_warning_raises h movie ncpu_avail n_cpu dt Tmin Tmax nT
    T_c L :
  (ncpu_avail <? n_cpu)%Z = true ->
  run_parallel ncpu_avail movie n_cpu dt Tmin Tmax nT T_c L h
  = Err (NameError "ncpu_req").
Proof.
  intros Hover. unfold run_parallel. rewrite Hover, ncpu_req_unbound.
  reflexivity.
Qed.

(** C2, what the code does on an over-request: for every requested count
    above the available capacity, the warning's f-string evaluates the name
    [ncpu_req], which is bound nowhere in the module, and [run_parallel]
    raises [NameError] before it clamps or starts a worker. *)
Theorem run_parallel_over_request
    (h : store) (movie : ref) (ncpu_avail n_cpu : Z)
    (dt Tmin Tmax : Q) (nT : Z) (T_c L : option Q) :
  (ncpu_avail < n_cpu)%Z ->
  run_parallel ncpu_avail movie n_cpu dt Tmin Tmax nT T_c L h
  = Err (NameError "ncpu_req").
Proof.
  intros Hover. apply run_parallel_warning_raises.
  now apply Z.ltb_lt.
Qed.

(* ------------------------------------------------------------------ *)
(** * Validation *)

(** C3, as the code has it: [transform_stack] checks none of its
    parameters. The one exception raised before the pixel loop is numpy's
    [ValueError] for a negative [nT]. For [nT >= 0] the grid is built,
    whatever the order of [Tmin] and [Tmax] and the sign of [dt], and the
    call is the pixel loop on that grid: an exception, if any, is raised
    while a pixel is processed. *)
Theorem transform_stack_validates_only_negative_nT
    (h : store) (movie : ref) (mv : ndarray)
    (dt Tmin Tmax : Q) (nT : Z) (T_c L : option Q) :
  nth_error h movie = Some mv ->
  ((nT < 0)%Z ->
   transform_stack movie dt Tmin Tmax nT T_c L h
   = Err (ValueError "Number of samples must be non-negative."))
  /\ ((0 <= nT)%Z ->
      exists periods,
        linspace Tmin Tmax nT = Ok periods
        /\ length periods = Z.to_nat nT
        /\ call (transform_stack movie dt Tmin Tmax nT T_c L) h
           = pixel_loop_value periods mv dt T_c L
               (zeros (shape mv) Float32, zeros (shape mv) Float32,
                zeros (shape mv) Float32, zeros (shape mv) Float32)).
Proof.
  intros Hmv. split.
  - intros Hneg. rewrite transform_stack_store with (mv := mv) by auto.
    unfold transform_stack_value, linspace.
    destruct (Z.ltb_spec nT 0); [reflexivity|lia].
  - intros Hpos. destruct (linspace_ok Tmin Tmax nT Hpos) as [g Hg].
    exists g. split; [exact Hg|]. split; [eapply linspace_length; eauto|].
    rewrite call_transform_stack with (mv := mv) by auto.
    unfold transform_stack_value. rewrite Hg. reflexivity.
Qed.

Lemma for_each_error {A S} (P : exn -> Prop) (body : S -> A -> result S) l :
  (forall s a e, body s a = Err e -> P e) ->
  forall s e, for_each l body s = Err e -> P e.
Proof.
  intros Hb. induction l as [|a l IH]; intros s e; simpl; [discriminate|].
  destruct (body s a) as [s'|e'] eqn:E; simpl.
  - apply IH.
  - intros H; injection H as <-. eapply Hb; eauto.
Qed.

(** C6. [down_sample] raises its validation error exactly when
    [scale_factor > 1]. The statement holds for every movie and every
    implementation of [rescale]: for [scale_factor > 1] the error is raised
    without looking at a frame, and for [scale_factor <= 1] no exception
    that comes out of the wrapper is this error. *)
Theorem down_sample_validation (movie : ndarray) (scale_factor : Q) :
  down_sample movie scale_factor
  = Err (ValueError "Upscaling is not supported!")
  <-> 1 < scale_factor.
Proof.
  unfold down_sample. destruct (Qlt_le_dec 1 scale_factor) as [Hgt|Hle].
  - tauto.
  - split; [|intros Hgt; exfalso; lra].
    intros H. exfalso. revert H.
    unfold getitem_frame at 1.
    destruct (0 <? nframes movie)%nat; simpl; [|discriminate].
    destruct (rescale _ scale_factor) as [frame1|w]; simpl; [|discriminate].
    intros H.
    apply (for_each_error
             (fun e => e <> ValueError "Upscaling is not supported!")) in H;
      [congruence|].
    clear H. intros s f e. unfold getitem_frame.
    destruct (f <? nframes movie)%nat; simpl; [|congruence].
    destruct (rescale _ scale_factor) as [im|w]; simpl; [|congruence].
    unfold setitem_frame.
    destruct (f <? nframes s)%nat; [|congruence].
    destruct (im_shape im) as [ih iw].
    destruct (_ && _); congruence.
Qed.

(* ------------------------------------------------------------------ *)
(** * Shape, element type and the input movie *)

Lemma ridge_movies_outputs periods dt T_c L mv ph pe po am :
  ridge_movies periods dt T_c L mv (ph, pe, po, am) ->
  output_for mv ph /\ output_for mv pe /\ output_for mv po
  /\ output_for mv am.
Proof. intros (H1 & H2 & H3 & H4 & _). auto. Qed.

Lemma run_parallel_returns h movie ncpu_avail n_cpu dt Tmin Tmax nT T_c L r :
  run_parallel ncpu_avail movie n_cpu dt Tmin Tmax nT T_c L h = Ok r ->
  (1 <= n_cpu <= ncpu_avail)%Z.
Proof.
  intros Hrun.
  destruct (Z.ltb_spec ncpu_avail n_cpu) as [Hover|Hle].
  - rewrite run_parallel_warning_raises in Hrun by now apply Z.ltb_lt.
    discriminate.
  - split; auto. unfold run_parallel in Hrun.
    destruct (Z.ltb_spec ncpu_avail n_cpu); [lia|].
    cbv beta iota delta [mbind lift mret mp_Pool fstring for_each rbind]
      in Hrun.
    simpl lookup_name in Hrun.
    destruct (Z.ltb_spec n_cpu 1); [discriminate|lia].
Qed.

(** C7. Each of the four movies returned by [transform_stack], and each of
    the four returned by [run_parallel], is a well-formed array with the
    shape (N, H, W) of the input movie and 32-bit elements. *)
Theorem outputs_shape_and_dtype
    (h : store) (movie : ref) (mv : ndarray) (ncpu_avail n_cpu : Z)
    (dt Tmin Tmax : Q) (nT : Z) (T_c L : option Q)
    (ph pe po am : ndarray) :
  nth_error h movie = Some mv -> wf mv ->
  call (transform_stack movie dt Tmin Tmax nT T_c L) h = Ok (ph, pe, po, am)
  \/ call (run_parallel ncpu_avail movie n_cpu dt Tmin Tmax nT T_c L) h
     = Ok (ph, pe, po, am) ->
  Forall (fun o => wf o /\ shape o = shape mv /\ dtype_of o = Float32)
         [ph; pe; po; am].
Proof.
  intros Hmv Hwf Hcall.
  assert (Hval : transform_stack_value mv dt Tmin Tmax nT T_c L
                 = Ok (ph, pe, po, am)).
  { destruct Hcall as [Hc|Hc].
    - now rewrite call_transform_stack with (mv := mv) in Hc by auto.
    - assert (Hn : (1 <= n_cpu <= ncpu_avail)%Z).
      { unfold call in Hc.
        destruct (run_parallel _ _ _ _ _ _ _ _ _ h) as [r|e] eqn:E;
          [|discriminate].
        eapply run_parallel_returns; eauto. }
      rewrite call_run_parallel with (mv := mv) in Hc by auto.
      apply run_parallel_value_spec in Hc; auto. lia. }
  apply transform_stack_value_spec in Hval.
  destruct Hval as (periods & _ & Hr).
  apply ridge_movies_outputs in Hr. destruct Hr as (H1 & H2 & H3 & H4).
  repeat constructor; solve [apply H1 | apply H2 | apply H3 | apply H4].
Qed.

(** C10. A call of [transform_stack] or of [run_parallel] that returns
    leaves every array that was in the store before the call, the input
    movie among them, exactly as it was; the four references it returns
    denote arrays that did not exist before. *)
Theorem input_movie_unchanged
    (h h' : store) (movie : ref) (mv : ndarray) (ncpu_avail n_cpu : Z)
    (dt Tmin Tmax : Q) (nT : Z) (T_c L : option Q)
    (r1 r2 r3 r4 : ref) :
  nth_error h movie = Some mv ->
  transform_stack movie dt Tmin Tmax nT T_c L h = Ok ((r1, r2, r3, r4), h')
  \/ run_parallel ncpu_avail movie n_cpu dt Tmin Tmax nT T_c L h
     = Ok ((r1, r2, r3, r4), h') ->
  nth_error h' movie = Some mv
  /\ (forall l a, nth_error h l = Some a -> nth_error h' l = Some a)
  /\ Forall (fun r => (length h <= r < length h')%nat) [r1; r2; r3; r4].
Proof.
  intros Hmv Hrun.
  assert (Happ : exists a b c d,
            h' = h ++ [a; b; c; d]
            /\ Forall (fun r => (length h <= r < length h + 4)%nat)
                      [r1; r2; r3; r4]).
  { destruct Hrun as [Hrun|Hrun].
    - rewrite transform_stack_store with (mv := mv) in Hrun by auto.
      destruct (transform_stack_value mv dt Tmin Tmax nT T_c L)
        as [[[[ph pe] po] am]|e]; [|discriminate].
      injection Hrun as <- <- <- <- <-.
      exists pe, ph, po, am. split; [reflexivity|].
      repeat constructor; lia.
    - pose proof (run_parallel_returns _ _ _ _ _ _ _ _ _ _ _ Hrun) as Hn.
      rewrite run_parallel_store with (mv := mv) in Hrun by auto.
      destruct (run_parallel_value mv n_cpu dt Tmin Tmax nT T_c L)
        as [[[[ph pe] po] am]|e]; [|discriminate].
      injection Hrun as <- <- <- <- <-.
      exists ph, pe, po, am. split; [reflexivity|].
      repeat constructor; lia. }
  destruct Happ as (a & b & c & d & -> & Hrefs).
  assert (Hkeep : forall l v,
            nth_error h l = Some v -> nth_error (h ++ [a; b; c; d]) l = Some v).
  { intros l v Hl. rewrite nth_error_app1; auto.
    apply nth_error_Some. congruence. }
  split; [auto|]. split; [exact Hkeep|].
  rewrite length_app. exact Hrefs.
Qed.

(* ------------------------------------------------------------------ *)
(** * The pixel pipeline *)

(** The two optional steps in front of the spectral stage, one pixel
    series at a time. *)
Lemma transform_pixel_steps periods dt T_c L input_vec r :
  transform_pixel periods dt T_c L input_vec = Ok r ->
  exists detrended signal,
    detrend dt T_c input_vec = Ok detrended
    /\ normalize dt L detrended = Ok signal
    /\ ridge_readout periods dt signal = Ok r.
Proof.
  unfold transform_pixel.
  destruct (detrend dt T_c input_vec) as [d|e] eqn:Hd; simpl;
    [|discriminate].
  destruct (normalize dt L d) as [s|e] eqn:Hs; simpl; [|discriminate].
  intros H. exists d, s. repeat split; auto.
Qed.

Lemma from_lib_ok {A} (r : lib_result A) (a : A) :
  from_lib r = Ok a -> r = Returned a.
Proof. destruct r; simpl; congruence. Qed.

Lemma np_sub_same_length a b :
  length b = length a ->
  np_sub a b = Ok (map (fun '(s, t) => s - t) (combine a b)).
Proof.
  intros Hlen. unfold np_sub, broadcast2.
  rewrite Hlen, Nat.eqb_refl. reflexivity.
Qed.

Lemma ridge_readout_spectrum periods dt signal r :
  ridge_readout periods dt signal = Ok r ->
  exists modulus wlet,
    compute_spectrum signal dt periods = Returned (modulus, wlet).
Proof.
  unfold ridge_readout.
  destruct (compute_spectrum signal dt periods) as [[modulus wlet]|w];
    simpl; [|discriminate].
  eauto.
Qed.

(** C8. In a returning call of [transform_stack], for every pixel [(y, x)]
    of the movie the series that enters the spectral transform
    ([compute_spectrum], and with it the ridge read-outs that end up in the
    four output columns of the pixel) is obtained from the pixel's time
    series [movie[:, y, x]] as follows. When [T_c] is [None] nothing is
    subtracted; when [T_c] is given the sinc trend with cutoff [T_c] of the
    series is subtracted from it first (sample by sample for a trend of the
    series' length). When [L] is [None] no normalisation is applied; when
    [L] is given the envelope normalisation with window [L] is applied to
    the (possibly detrended) series. *)
Theorem preprocessing_in_transform_stack
    (h : store) (movie : ref) (mv : ndarray)
    (dt Tmin Tmax : Q) (nT : Z) (T_c L : option Q)
    (ph pe po am : ndarray) :
  nth_error h movie = Some mv ->
  call (transform_stack movie dt Tmin Tmax nT T_c L) h = Ok (ph, pe, po, am) ->
  exists periods,
    linspace Tmin Tmax nT = Ok periods
    /\ forall y x, (y < ydim mv)%nat -> (x < xdim mv)%nat ->
         exists detrended signal modulus wlet,
           match T_c with
           | None => detrended = col mv y x
           | Some T_c =>
               exists trend,
                 sinc_smooth (col mv y x) T_c dt = Returned trend
                 /\ np_sub (col mv y x) trend = Ok detrended
                 /\ (length trend = length (col mv y x) ->
                     detrended
                     = map (fun '(s, t) => s - t)
                           (combine (col mv y x) trend))
           end
           /\ match L with
              | None => signal = detrended
              | Some L =>
                  normalize_with_envelope detrended L dt = Returned signal
              end
           /\ compute_spectrum signal dt periods = Returned (modulus, wlet)
           /\ exists phases ridge_periods powers amplitudes,
                ridge_readout periods dt signal
                = Ok (phases, ridge_periods, powers, amplitudes)
                /\ stored (nframes mv) phases = Ok (col ph y x)
                /\ stored (nframes mv) ridge_periods = Ok (col pe y x)
                /\ stored (nframes mv) powers = Ok (col po y x)
                /\ stored (nframes mv) amplitudes = Ok (col am y x).
Proof.
  intros Hmv Hcall.
  rewrite call_transform_stack with (mv := mv) in Hcall by auto.
  apply transform_stack_value_spec in Hcall.
  destruct Hcall as (periods & Hg & _ & _ & _ & _ & Hf).
  exists periods. split; [exact Hg|].
  intros y x Hy Hx. specialize (Hf x y Hx Hy I).
  unfold pixel_cols in Hf.
  destruct (transform_pixel periods dt T_c L (col mv y x))
    as [[[[phases rp] pw] amp]|e] eqn:Hpix; [|discriminate].
  simpl in Hf.
  destruct (stored (nframes mv) phases) as [c1|] eqn:E1; [|discriminate].
  destruct (stored (nframes mv) rp) as [c2|] eqn:E2; [|discriminate].
  destruct (stored (nframes mv) pw) as [c3|] eqn:E3; [|discriminate].
  destruct (stored (nframes mv) amp) as [c4|] eqn:E4; [|discriminate].
  simpl in Hf. injection Hf as <- <- <- <-.
  apply transform_pixel_steps in Hpix.
  destruct Hpix as (detrended & signal & Hd & Hn & Hr).
  destruct (ridge_readout_spectrum _ _ _ _ Hr) as (modulus & wlet & Hs).
  exists detrended, signal, modulus, wlet.
  split; [|split; [|split; [exact Hs|]]].
  - unfold detrend in Hd. destruct T_c as [tc|].
    + destruct (from_lib (sinc_smooth (col mv y x) tc dt)) as [trend|e]
        eqn:Ht; simpl in Hd; [|discriminate].
      apply from_lib_ok in Ht. exists trend.
      split; [exact Ht|]. split; [exact Hd|].
      intros Hlen. rewrite np_sub_same_length in Hd by exact Hlen.
      congruence.
    + congruence.
  - unfold normalize in Hn. destruct L as [l|].
    + now apply from_lib_ok.
    + congruence.
  - exists phases, rp, pw, amp. auto.
Qed.

(* ------------------------------------------------------------------ *)
(** * The row partition *)

Lemma shape_eta a : shape a = (nframes a, ydim a, xdim a).
Proof. unfold nframes, ydim, xdim. now destruct (shape a) as [[N H] W]. Qed.

Lemma slice_append_left a b ab :
  wf a -> wf b -> append_rows a b = Ok ab -> dtype_of a = dtype_of b ->
  slice_rows ab 0 (ydim a) = a.
Proof.
  intros Ha Hb Hab Hd.
  apply wf_spec in Ha, Hb. destruct Ha as [Ha1 Ha2], Hb as [Hb1 Hb2].
  rewrite Forall_forall in Ha2. revert Hab. unfold append_rows.
  destruct (Nat.eqb_spec (nframes a) (nframes b)) as [EN|]; [|discriminate].
  destruct (Nat.eqb_spec (xdim a) (xdim b)) as [EW|]; [|discriminate].
  simpl. intros H; injection H as <-.
  destruct a as [[[N H] W] da fa].
  unfold slice_rows, nframes, ydim, xdim in *.
  simpl in *. f_equal.
  - f_equal. f_equal. lia.
  - rewrite <- Hd. apply promote_same.
  - rewrite map_map. rewrite <- (map_id fa) at 2.
    apply map_combine_fst; [lia|].
    intros u v Hin. destruct (Ha2 u Hin) as [A1 _].
    rewrite Nat.sub_0_r, <- A1, firstn_app, Nat.sub_diag, firstn_all.
    simpl. apply app_nil_r.
Qed.

Lemma slice_append_right a b ab st en :
  wf a -> wf b -> append_rows a b = Ok ab -> dtype_of a = dtype_of b ->
  slice_rows ab (ydim a + st) (ydim a + en) = slice_rows b st en.
Proof.
  intros Ha Hb Hab Hd.
  apply wf_spec in Ha, Hb. destruct Ha as [Ha1 Ha2], Hb as [Hb1 Hb2].
  rewrite Forall_forall in Ha2. revert Hab. unfold append_rows.
  destruct (Nat.eqb_spec (nframes a) (nframes b)) as [EN|]; [|discriminate].
  destruct (Nat.eqb_spec (xdim a) (xdim b)) as [EW|]; [|discriminate].
  simpl. intros H; injection H as <-.
  unfold slice_rows, nframes, ydim, xdim in *. simpl in *. f_equal.
  - f_equal; [f_equal|]; lia.
  - rewrite Hd. apply promote_same.
  - rewrite map_map.
    apply map_combine_snd; [lia|].
    intros u v Hin. destruct (Ha2 u Hin) as [A1 _].
    rewrite skipn_app, skipn_all2 by lia. simpl.
    rewrite A1. f_equal; [lia|]. f_equal. lia.
Qed.

Lemma slices_append_right a b ab st sizes :
  wf a -> wf b -> append_rows a b = Ok ab -> dtype_of a = dtype_of b ->
  slices ab (ydim a + st) sizes = slices b st sizes.
Proof.
  intros Ha Hb Hab Hd. revert st.
  induction sizes as [|sz sizes IH]; intros st; simpl; auto.
  rewrite <- Nat.add_assoc. rewrite IH. f_equal.
  now apply slice_append_right.
Qed.

(** Joining arrays that agree in frame count, row width and element type
    succeeds, and cutting the result at their row counts gives them back. *)
Lemma concatenate_pieces (N W : nat) (d : dtype) rs :
  rs <> [] ->
  Forall (fun a => wf a /\ nframes a = N /\ xdim a = W /\ dtype_of a = d) rs ->
  exists r,
    concatenate rs = Ok r
    /\ wf r /\ shape r = (N, sum (map ydim rs), W) /\ dtype_of r = d
    /\ slices r 0 (map ydim rs) = rs.
Proof.
  induction rs as [|a rs IH]; intros Hne Hall; [congruence|].
  inversion Hall as [|? ? (Wa & Na & Xa & Da) Hrest]; subst.
  destruct rs as [|b rs].
  - exists a. simpl. repeat split; auto.
    + rewrite shape_eta. f_equal. f_equal. lia.
    + now rewrite slice_rows_all.
  - destruct IH as (rb & Hrb & Wrb & Srb & Drb & Hsl);
      [discriminate|assumption|].
    assert (Nrb : nframes rb = nframes a)
      by (unfold nframes at 1; now rewrite Srb).
    assert (Xrb : xdim rb = xdim a) by (unfold xdim at 1; now rewrite Srb).
    assert (Yrb : ydim rb = sum (map ydim (b :: rs)))
      by (unfold ydim at 1; now rewrite Srb).
    destruct (append_rows_ok a rb Nrb Xrb) as [r Hr].
    destruct (append_rows_spec _ _ _ Wa Wrb Hr) as (Wr & _ & _ & Sr & Dr & _).
    exists r. rewrite concatenate_cons by discriminate. rewrite Hrb.
    simpl rbind. split; [exact Hr|]. split; [exact Wr|].
    split; [|split].
    + rewrite Sr, Yrb. reflexivity.
    + rewrite Dr, Drb. apply promote_same.
    + change (map ydim (a :: b :: rs)) with (ydim a :: map ydim (b :: rs)).
      change (slices r 0 (ydim a :: map ydim (b :: rs)))
        with (slice_rows r 0 (0 + ydim a)
              :: slices r (0 + ydim a) (map ydim (b :: rs))).
      rewrite Nat.add_0_l.
      rewrite (slice_append_left a rb r) by (auto; congruence).
      replace (ydim a) with (ydim a + 0)%nat at 1 by lia.
      rewrite (slices_append_right a rb r) by (auto; congruence).
      now rewrite Hsl.
Qed.

Lemma slices_dims a st sizes :
  Forall (fun c => nframes c = nframes a /\ xdim c = xdim a)
         (slices a st sizes).
Proof.
  revert st. induction sizes; intros st; simpl; constructor; auto.
Qed.

(** [np.array_split] along the row axis for [1 <= n <= H]: exactly [n]
    slices; their row counts sum to [H] and differ pairwise by at most one;
    the slices are contiguous and in row order (each starts where the
    previous one ends), and joining them gives the array back. Joining
    arrays of the slices' shapes gives an array of the whole shape that is
    cut into exactly these arrays again at the slices' boundaries. *)
Lemma array_split_rows (mv : ndarray) (n : Z) :
  wf mv -> (1 <= ydim mv)%nat -> (1 <= n <= Z.of_nat (ydim mv))%Z ->
  exists chunks,
    array_split mv n = Ok chunks
    /\ length chunks = Z.to_nat n
    /\ sum (map ydim chunks) = ydim mv
    /\ (forall a b, In a chunks -> In b chunks -> (ydim a <= ydim b + 1)%nat)
    /\ chunks = slices mv 0 (map ydim chunks)
    /\ concatenate chunks = Ok mv
    /\ (forall rs,
          Forall2 output_for chunks rs ->
          exists r,
            concatenate rs = Ok r /\ output_for mv r
            /\ slices r 0 (map ydim chunks) = rs
            /\ array_split r n = Ok rs).
Proof.
  intros Hwf HH Hn.
  set (sizes := chunk_sizes (ydim mv) (Z.to_nat n)).
  assert (Hpos : (0 < Z.to_nat n)%nat) by lia.
  assert (Hsum : sum sizes = ydim mv) by (apply sum_chunk_sizes; lia).
  assert (Hlen : length sizes = Z.to_nat n) by (apply length_chunk_sizes; lia).
  assert (Hy : map ydim (slices mv 0 sizes) = sizes)
    by (apply map_ydim_slices; simpl; lia).
  exists (slices mv 0 sizes).
  split; [apply array_split_slices; lia|].
  split; [now rewrite length_slices|].
  split; [now rewrite Hy|].
  split; [|split; [now rewrite Hy|split]].
  - intros a b Ha Hb.
    apply (in_map ydim) in Ha, Hb. rewrite Hy in Ha, Hb.
    apply chunk_sizes_near in Ha, Hb. lia.
  - apply concatenate_array_split; auto. lia.
  - intros rs Hrs.
    assert (Hall : Forall (fun a => wf a /\ nframes a = nframes mv
                                    /\ xdim a = xdim mv
                                    /\ dtype_of a = Float32) rs).
    { assert (Hc : Forall (fun c => nframes c = nframes mv
                                    /\ xdim c = xdim mv) (slices mv 0 sizes)).
      { apply slices_dims. }
      clear - Hrs Hc. induction Hrs as [|c r cs rs Hcr _ IH]; constructor.
      - inversion Hc as [|? ? [Nc Xc] _]; subst.
        pose proof (nframes_output _ _ Hcr). pose proof (xdim_output _ _ Hcr).
        destruct Hcr as (Wr & _ & Dr). repeat split; auto; congruence.
      - apply IH. now inversion Hc. }
    assert (Hys : map ydim rs = sizes).
    { rewrite <- Hy. clear - Hrs.
      induction Hrs as [|c r cs rs Hcr _ IH]; simpl; auto.
      rewrite IH. f_equal. now apply ydim_output. }
    assert (Hne : rs <> []).
    { intros ->. simpl in Hys. rewrite <- Hys in Hlen. simpl in Hlen. lia. }
    destruct (concatenate_pieces (nframes mv) (xdim mv) Float32 rs Hne Hall)
      as (r & Hr & Wr & Sr & Dr & Hsl).
    exists r. split; [exact Hr|]. split; [|split].
    + repeat split; auto. rewrite Sr, Hys, Hsum. symmetry. apply shape_eta.
    + rewrite Hy, <- Hys. exact Hsl.
    + rewrite array_split_slices by lia.
      replace (ydim r) with (ydim mv)
        by (unfold ydim at 2; rewrite Sr, Hys, Hsum; reflexivity).
      fold sizes. rewrite <- Hys at 1. now rewrite Hsl.
Qed.

Lemma Forall2_map_r {A B C} (P : A -> C -> Prop) (f : B -> C) l1 l2 :
  Forall2 (fun a b => P a (f b)) l1 l2 -> Forall2 P l1 (map f l2).
Proof. induction 1; simpl; constructor; auto. Qed.

(** What a worker returns for a slice are four output arrays for that
    slice. *)
Lemma worker_outputs dt Tmin Tmax nT T_c L chunk r :
  worker dt Tmin Tmax nT T_c L chunk = Ok r ->
  output_for chunk (fst (fst (fst r))) /\ output_for chunk (snd (fst (fst r)))
  /\ output_for chunk (snd (fst r)) /\ output_for chunk (snd r).
Proof.
  rewrite worker_value. intros H.
  apply transform_stack_value_spec in H. destruct H as (periods & _ & H).
  destruct r as [[[ph pe] po] am]. simpl.
  eapply ridge_movies_outputs; eauto.
Qed.

(** C5. For a movie of [H >= 1] rows and a worker count [n] with
    [1 <= n <= H] (not above the capacity), [run_parallel] works on exactly
    [n] slices of the movie; their row counts sum to [H] and differ pairwise
    by at most one; the slices are contiguous and in row order (each starts
    where the previous one ends) and together are the movie. The call is
    one [transform_stack] per slice followed by the four row-wise
    concatenations of the per-slice results in slice order. When every
    slice has a result, each of the four returned movies has the movie's
    shape and, cut at the boundaries of the input slices, consists of
    exactly the per-slice results in slice order: no row is duplicated or
    left out. *)
Theorem run_parallel_row_partition
    (h : store) (movie : ref) (mv : ndarray) (ncpu_avail n_cpu : Z)
    (dt Tmin Tmax : Q) (nT : Z) (T_c L : option Q) :
  nth_error h movie = Some mv -> wf mv -> (1 <= ydim mv)%nat ->
  (1 <= n_cpu <= Z.of_nat (ydim mv))%Z -> (n_cpu <= ncpu_avail)%Z ->
  exists movie_split,
    array_split mv n_cpu = Ok movie_split
    /\ length movie_split = Z.to_nat n_cpu
    /\ sum (map ydim movie_split) = ydim mv
    /\ (forall a b, In a movie_split -> In b movie_split ->
          (ydim a <= ydim b + 1)%nat)
    /\ movie_split = slices mv 0 (map ydim movie_split)
    /\ concatenate movie_split = Ok mv
    /\ call (run_parallel ncpu_avail movie n_cpu dt Tmin Tmax nT T_c L) h
       = (let* res_movies :=
            starmap (worker dt Tmin Tmax nT T_c L) movie_split in
          concat4 res_movies)
    /\ forall res_movies,
         starmap (worker dt Tmin Tmax nT T_c L) movie_split = Ok res_movies ->
         exists ph pe po am,
           call (run_parallel ncpu_avail movie n_cpu dt Tmin Tmax nT T_c L) h
           = Ok (ph, pe, po, am)
           /\ shape ph = shape mv /\ shape pe = shape mv
           /\ shape po = shape mv /\ shape am = shape mv
           /\ slices ph 0 (map ydim movie_split)
              = map (fun r => fst (fst (fst r))) res_movies
           /\ slices pe 0 (map ydim movie_split)
              = map (fun r => snd (fst (fst r))) res_movies
           /\ slices po 0 (map ydim movie_split)
              = map (fun r => snd (fst r)) res_movies
           /\ slices am 0 (map ydim movie_split)
              = map (fun r => snd r) res_movies.
Proof.
  intros Hmv Hwf HH Hn Hcap.
  destruct (array_split_rows mv n_cpu Hwf HH Hn)
    as (chunks & Hsplit & Hlen & Hsum & Hnear & Hsl & Hcat & Hjoin).
  exists chunks.
  do 6 (split; [assumption|]).
  assert (Hcall :
    call (run_parallel ncpu_avail movie n_cpu dt Tmin Tmax nT T_c L) h
    = (let* res_movies := starmap (worker dt Tmin Tmax nT T_c L) chunks in
       concat4 res_movies)).
  { rewrite call_run_parallel with (mv := mv) by (auto; lia).
    unfold run_parallel_value, starmap. rewrite Hsplit. simpl rbind.
    rewrite (map_result_ext _ (worker dt Tmin Tmax nT T_c L) chunks);
      [reflexivity|].
    intros c. symmetry. apply worker_value. }
  split; [exact Hcall|].
  intros rs Hrs. rewrite Hcall, Hrs. simpl rbind.
  unfold starmap in Hrs. apply map_result_Forall2 in Hrs.
  assert (H1 : Forall2 output_for chunks
                 (map (fun r => fst (fst (fst r))) rs)).
  { apply Forall2_map_r. eapply Forall2_impl_from; [|exact Hrs].
    intros c r Hr. now apply worker_outputs in Hr. }
  assert (H2 : Forall2 output_for chunks
                 (map (fun r => snd (fst (fst r))) rs)).
  { apply Forall2_map_r. eapply Forall2_impl_from; [|exact Hrs].
    intros c r Hr. now apply worker_outputs in Hr. }
  assert (H3 : Forall2 output_for chunks (map (fun r => snd (fst r)) rs)).
  { apply Forall2_map_r. eapply Forall2_impl_from; [|exact Hrs].
    intros c r Hr. now apply worker_outputs in Hr. }
  assert (H4 : Forall2 output_for chunks (map (fun r => snd r) rs)).
  { apply Forall2_map_r. eapply Forall2_impl_from; [|exact Hrs].
    intros c r Hr. now apply worker_outputs in Hr. }
  destruct (Hjoin _ H1) as (ph & Cph & (_ & Sph & _) & Lph & _).
  destruct (Hjoin _ H2) as (pe & Cpe & (_ & Spe & _) & Lpe & _).
  destruct (Hjoin _ H3) as (po & Cpo & (_ & Spo & _) & Lpo & _).
  destruct (Hjoin _ H4) as (am & Cam & (_ & Sam & _) & Lam & _).
  exists ph, pe, po, am. unfold concat4.
  rewrite Cph, Cpe, Cpo, Cam. simpl rbind.
  repeat split; assumption.
Qed.

(* ------------------------------------------------------------------ *)
(** * Further properties of [run_parallel] *)

(** X1. For every worker count from one up to the available capacity, also
    one above the number of rows, [run_parallel] returns four movies exactly
    when a single [transform_stack] call does, and then the same ones; and
    it raises exactly when the single call raises. *)
Theorem run_parallel_any_worker_count
    (h : store) (movie : ref) (mv : ndarray) (ncpu_avail n_cpu : Z)
    (dt Tmin Tmax : Q) (nT : Z) (T_c L : option Q) :
  nth_error h movie = Some mv -> wf mv -> (1 <= n_cpu <= ncpu_avail)%Z ->
  (forall o,
     call (run_parallel ncpu_avail movie n_cpu dt Tmin Tmax nT T_c L) h = Ok o
     <-> call (transform_stack movie dt Tmin Tmax nT T_c L) h = Ok o)
  /\ ((exists e,
         call (run_parallel ncpu_avail movie n_cpu dt Tmin Tmax nT T_c L) h
         = Err e)
      <-> (exists e,
             call (transform_stack movie dt Tmin Tmax nT T_c L) h = Err e)).
Proof.
  intros Hmv Hwf Hn.
  rewrite call_run_parallel with (mv := mv) by auto.
  rewrite call_transform_stack with (mv := mv) by auto.
  assert (Hiff : forall o,
            run_parallel_value mv n_cpu dt Tmin Tmax nT T_c L = Ok o
            <-> transform_stack_value mv dt Tmin Tmax nT T_c L = Ok o)
    by (intros o; apply run_parallel_value_spec; auto; lia).
  split; [exact Hiff|].
  destruct (run_parallel_value mv n_cpu dt Tmin Tmax nT T_c L) as [o|e] eqn:E1;
    destruct (transform_stack_value mv dt Tmin Tmax nT T_c L) as [o'|e'] eqn:E2.
  - split; intros [e He]; discriminate.
  - pose proof (proj1 (Hiff o) eq_refl). discriminate.
  - pose proof (proj2 (Hiff o') eq_refl). discriminate.
  - split; intros _; eauto.
Qed.

(** X2. A worker count below one that is not above the capacity makes
    [mp.Pool] raise [ValueError]; this happens before the movie is looked
    at. *)
Theorem run_parallel_rejects_nonpositive_count
    (h : store) (movie : ref) (ncpu_avail n_cpu : Z)
    (dt Tmin Tmax : Q) (nT : Z) (T_c L : option Q) :
  (n_cpu < 1)%Z -> (n_cpu <= ncpu_avail)%Z ->
  run_parallel ncpu_avail movie n_cpu dt Tmin Tmax nT T_c L h
  = Err (ValueError "Number of processes must be at least 1").
Proof.
  intros Hlow Hle. unfold run_parallel.
  destruct (Z.ltb_spec ncpu_avail n_cpu); [lia|].
  change (fstring run_parallel_scope ["ncpu_avail"]) with (Ok tt).
  change (fstring run_parallel_scope ["n_cpu"]) with (Ok tt).
  cbv beta iota delta [mbind lift mret mp_Pool].
  destruct (Z.ltb_spec n_cpu 1); [reflexivity|lia].
Qed.

(** X3. With more workers than rows, the first [H] slices have one row each
    and the remaining ones are empty. *)
Theorem array_split_surplus_workers (mv : ndarray) (n : Z) :
  (Z.of_nat (ydim mv) < n)%Z ->
  exists chunks,
    array_split mv n = Ok chunks
    /\ map ydim chunks
       = repeat 1%nat (ydim mv) ++ repeat 0%nat (Z.to_nat n - ydim mv).
Proof.
  intros Hn.
  assert (Hlt : (ydim mv < Z.to_nat n)%nat) by lia.
  exists (slices mv 0 (chunk_sizes (ydim mv) (Z.to_nat n))).
  split; [apply array_split_slices; lia|].
  rewrite map_ydim_slices
    by (rewrite sum_chunk_sizes by lia; simpl; lia).
  unfold chunk_sizes.
  rewrite Nat.div_small, Nat.mod_small by lia. reflexivity.
Qed.

(* ------------------------------------------------------------------ *)
(** * Further properties of [transform_stack] *)

Lemma for_each_skip {A S} (l : list A) (s : S) :
  for_each l (fun s _ => Ok s) s = Ok s.
Proof. induction l; simpl; auto. Qed.

(** X4. A movie without pixels (no rows or no columns) is transformed to
    four all-zero movies of its shape for every non-negative [nT]; nothing
    else about the parameters matters and the library is not called. *)
Theorem transform_stack_no_pixels
    (h : store) (movie : ref) (mv : ndarray)
    (dt Tmin Tmax : Q) (nT : Z) (T_c L : option Q) :
  nth_error h movie = Some mv -> (0 <= nT)%Z ->
  ydim mv = 0%nat \/ xdim mv = 0%nat ->
  call (transform_stack movie dt Tmin Tmax nT T_c L) h
  = Ok (zeros (shape mv) Float32, zeros (shape mv) Float32,
        zeros (shape mv) Float32, zeros (shape mv) Float32).
Proof.
  intros Hmv HnT Hempty.
  rewrite call_transform_stack with (mv := mv) by auto.
  unfold transform_stack_value.
  destruct (linspace_ok Tmin Tmax nT HnT) as [g ->]. simpl.
  unfold pixel_loop_value. destruct Hempty as [-> | ->]; simpl.
  - apply for_each_skip.
  - reflexivity.
Qed.

(** X5. What a returning call computes: at every pixel the four output
    columns are the four ridge read-outs of that pixel's time series,
    broadcast to the frame count and cast to 32 bit. *)
Theorem transform_stack_pixelwise
    (h : store) (movie : ref) (mv : ndarray)
    (dt Tmin Tmax : Q) (nT : Z) (T_c L : option Q)
    (ph pe po am : ndarray) :
  nth_error h movie = Some mv ->
  call (transform_stack movie dt Tmin Tmax nT T_c L) h = Ok (ph, pe, po, am) ->
  exists periods,
    linspace Tmin Tmax nT = Ok periods
    /\ forall y x, (y < ydim mv)%nat -> (x < xdim mv)%nat ->
         exists phases ridge_periods powers amplitudes,
           transform_pixel periods dt T_c L (col mv y x)
           = Ok (phases, ridge_periods, powers, amplitudes)
           /\ stored (nframes mv) phases = Ok (col ph y x)
           /\ stored (nframes mv) ridge_periods = Ok (col pe y x)
           /\ stored (nframes mv) powers = Ok (col po y x)
           /\ stored (nframes mv) amplitudes = Ok (col am y x).
Proof.
  intros Hmv Hcall.
  rewrite call_transform_stack with (mv := mv) in Hcall by auto.
  apply transform_stack_value_spec in Hcall.
  destruct Hcall as (periods & Hg & _ & _ & _ & _ & Hf).
  exists periods. split; [exact Hg|].
  intros y x Hy Hx. specialize (Hf x y Hx Hy I).
  unfold pixel_cols in Hf.
  destruct (transform_pixel periods dt T_c L (col mv y x))
    as [[[[phases rp] pw] amp]|e]; [|discriminate].
  simpl in Hf.
  destruct (stored (nframes mv) phases) as [c1|] eqn:E1; [|discriminate].
  destruct (stored (nframes mv) rp) as [c2|] eqn:E2; [|discriminate].
  destruct (stored (nframes mv) pw) as [c3|] eqn:E3; [|discriminate].
  destruct (stored (nframes mv) amp) as [c4|] eqn:E4; [|discriminate].
  simpl in Hf. injection Hf as <- <- <- <-.
  exists phases, rp, pw, amp. auto.
Qed.

(** X6. The output at a pixel is a function of that pixel's time series
    alone: two pixels, of one movie or of two movies with the same frame
    count, that carry the same series get the same four output columns
    under the same parameters. *)
Theorem transform_stack_pixel_local
    (h1 h2 : store) (m1 m2 : ref) (mv1 mv2 : ndarray)
    (dt Tmin Tmax : Q) (nT : Z) (T_c L : option Q)
    (ph1 pe1 po1 am1 ph2 pe2 po2 am2 : ndarray) (y1 x1 y2 x2 : nat) :
  nth_error h1 m1 = Some mv1 -> nth_error h2 m2 = Some mv2 ->
  call (transform_stack m1 dt Tmin Tmax nT T_c L) h1
  = Ok (ph1, pe1, po1, am1) ->
  call (transform_stack m2 dt Tmin Tmax nT T_c L) h2
  = Ok (ph2, pe2, po2, am2) ->
  nframes mv1 = nframes mv2 ->
  (y1 < ydim mv1)%nat -> (x1 < xdim mv1)%nat ->
  (y2 < ydim mv2)%nat -> (x2 < xdim mv2)%nat ->
  col mv1 y1 x1 = col mv2 y2 x2 ->
  col ph1 y1 x1 = col ph2 y2 x2 /\ col pe1 y1 x1 = col pe2 y2 x2
  /\ col po1 y1 x1 = col po2 y2 x2 /\ col am1 y1 x1 = col am2 y2 x2.
Proof.
  intros Hm1 Hm2 Hc1 Hc2 HN Hy1 Hx1 Hy2 Hx2 Hcol.
  rewrite call_transform_stack with (mv := mv1) in Hc1 by auto.
  rewrite call_transform_stack with (mv := mv2) in Hc2 by auto.
  apply transform_stack_value_spec in Hc1, Hc2.
  destruct Hc1 as (p1 & Hg1 & _ & _ & _ & _ & Hf1).
  destruct Hc2 as (p2 & Hg2 & _ & _ & _ & _ & Hf2).
  assert (p1 = p2) by congruence. subst p2.
  specialize (Hf1 x1 y1 Hx1 Hy1 I). specialize (Hf2 x2 y2 Hx2 Hy2 I).
  rewrite Hcol, HN, Hf2 in Hf1. injection Hf1 as -> -> -> ->. auto.
Qed.

Lemma list_prod_app {A B} (l1 l2 : list A) (ys : list B) :
  list_prod (l1 ++ l2) ys = list_prod l1 ys ++ list_prod l2 ys.
Proof.
  induction l1 as [|a l1 IH]; simpl; auto. now rewrite IH, app_assoc.
Qed.

Lemma seq_split_at n i :
  (i < n)%nat -> seq 0 n = seq 0 i ++ i :: seq (S i) (n - S i).
Proof.
  intros Hi. replace n with (i + S (n - S i))%nat at 1 by lia.
  rewrite seq_app. reflexivity.
Qed.

(** The pixels the loop visits, cut at one of them. *)
Lemma pixels_cut W H x y :
  (x < W)%nat -> (y < H)%nat ->
  exists l1 l2,
    list_prod (range W) (range H) = l1 ++ (x, y) :: l2
    /\ forall x' y', In (x', y') l1 ->
         visited_before x' y' x y /\ (x' < W)%nat /\ (y' < H)%nat.
Proof.
  intros Hx Hy. unfold range.
  exists (list_prod (seq 0 x) (seq 0 H) ++ map (fun v => (x, v)) (seq 0 y)),
         (map (fun v => (x, v)) (seq (S y) (H - S y))
          ++ list_prod (seq (S x) (W - S x)) (seq 0 H)).
  split.
  - rewrite (seq_split_at W x Hx) at 1. rewrite list_prod_app. simpl.
    rewrite (seq_split_at H y Hy) at 2. rewrite map_app. simpl.
    now rewrite <- !app_assoc.
  - intros x' y' Hin. apply in_app_or in Hin. destruct Hin as [Hin|Hin].
    + apply in_prod_iff in Hin. rewrite !in_seq in Hin.
      unfold visited_before. lia.
    + apply in_map_iff in Hin. destruct Hin as (v & E & Hv).
      injection E as <- <-. apply in_seq in Hv.
      unfold visited_before. lia.
Qed.

Lemma setitem_col_error a y x vals e :
  (y < ydim a)%nat -> (x < xdim a)%nat ->
  broadcast_to (nframes a) vals = Err e -> setitem_col a y x vals = Err e.
Proof.
  intros Hy Hx Hb. unfold setitem_col.
  destruct (Nat.ltb_spec y (ydim a)); [|lia].
  destruct (Nat.ltb_spec x (xdim a)); [|lia]. simpl.
  now rewrite Hb.
Qed.

(** Under the loop invariant a step fails with the exception of the pixel's
    output columns. *)
Lemma pixel_step_error periods dt T_c L mv done o x y e :
  loop_inv periods dt T_c L mv done o ->
  (x < xdim mv)%nat -> (y < ydim mv)%nat ->
  pixel_cols periods dt T_c L (nframes mv) (col mv y x) = Err e ->
  pixel_step periods mv dt T_c L (ydim mv * xdim mv) (ydim mv) o x y = Err e.
Proof.
  intros Hinv Hx Hy Hc.
  destruct o as [[[ph pe] po] am]. destruct Hinv as (H1 & H2 & H3 & H4 & _).
  simpl in H1, H2, H3, H4.
  unfold pixel_step. rewrite progress_ok by nia. simpl.
  rewrite getitem_col_ok by auto. simpl.
  unfold pixel_cols in Hc.
  destruct (transform_pixel periods dt T_c L (col mv y x))
    as [[[[phases rp] pw] amp]|e']; [|simpl in *; congruence].
  simpl in *. unfold stored in Hc.
  pose proof (nframes_output _ _ H1) as N1.
  pose proof (nframes_output _ _ H2) as N2.
  pose proof (nframes_output _ _ H3) as N3.
  pose proof (nframes_output _ _ H4) as N4.
  pose proof (ydim_output _ _ H1). pose proof (xdim_output _ _ H1).
  pose proof (ydim_output _ _ H2). pose proof (xdim_output _ _ H2).
  pose proof (ydim_output _ _ H3). pose proof (xdim_output _ _ H3).
  pose proof (ydim_output _ _ H4). pose proof (xdim_output _ _ H4).
  destruct (broadcast_to (nframes mv) phases) as [v1|e1] eqn:B1.
  2:{ simpl in Hc. injection Hc as <-.
      rewrite (setitem_col_error ph y x phases e1); auto; try lia.
      now rewrite N1. }
  destruct (setitem_col_ok ph y x phases v1) as [ph' ->];
    try lia; [now rewrite N1|]. simpl in *.
  destruct (broadcast_to (nframes mv) rp) as [v2|e2] eqn:B2.
  2:{ simpl in Hc. injection Hc as <-.
      rewrite (setitem_col_error pe y x rp e2); auto; try lia.
      now rewrite N2. }
  destruct (setitem_col_ok pe y x rp v2) as [pe' ->];
    try lia; [now rewrite N2|]. simpl in *.
  destruct (broadcast_to (nframes mv) pw) as [v3|e3] eqn:B3.
  2:{ simpl in Hc. injection Hc as <-.
      rewrite (setitem_col_error po y x pw e3); auto; try lia.
      now rewrite N3. }
  destruct (setitem_col_ok po y x pw v3) as [po' ->];
    try lia; [now rewrite N3|]. simpl in *.
  destruct (broadcast_to (nframes mv) amp) as [v4|e4] eqn:B4.
  2:{ simpl in Hc. injection Hc as <-.
      rewrite (setitem_col_error am y x amp e4); auto; try lia.
      now rewrite N4. }
  discriminate.
Qed.

(** X7. No partial result: for a grid that has been built, a call returns
    exactly when the pipeline goes through at every pixel. *)
Theorem transform_stack_all_or_nothing
    (h : store) (movie : ref) (mv : ndarray) (periods : list Q)
    (dt Tmin Tmax : Q) (nT : Z) (T_c L : option Q) :
  nth_error h movie = Some mv -> linspace Tmin Tmax nT = Ok periods ->
  (exists o, call (transform_stack movie dt Tmin Tmax nT T_c L) h = Ok o)
  <-> (forall x y, (x < xdim mv)%nat -> (y < ydim mv)%nat ->
         exists c,
           pixel_cols periods dt T_c L (nframes mv) (col mv y x) = Ok c).
Proof.
  intros Hmv Hg. rewrite call_transform_stack with (mv := mv) by auto.
  split.
  - intros [o Ho]. apply transform_stack_value_spec in Ho.
    destruct Ho as (p & Hp & Hr). assert (p = periods) by congruence. subst p.
    exact (ridge_movies_pixels_ok _ _ _ _ _ _ Hr).
  - intros Hok. destruct (ridge_movies_exists periods dt T_c L mv Hok)
      as [o Ho].
    exists o. apply transform_stack_value_spec. eauto.
Qed.

(** X8. The exception of a failing call is that of the first failing pixel
    in loop order (columns outermost, rows innermost). *)
Theorem transform_stack_first_failure
    (h : store) (movie : ref) (mv : ndarray) (periods : list Q)
    (dt Tmin Tmax : Q) (nT : Z) (T_c L : option Q) (x y : nat) (e : exn) :
  nth_error h movie = Some mv -> linspace Tmin Tmax nT = Ok periods ->
  (x < xdim mv)%nat -> (y < ydim mv)%nat ->
  pixel_cols periods dt T_c L (nframes mv) (col mv y x) = Err e ->
  (forall x' y', (x' < xdim mv)%nat -> (y' < ydim mv)%nat ->
     visited_before x' y' x y ->
     exists c,
       pixel_cols periods dt T_c L (nframes mv) (col mv y' x') = Ok c) ->
  call (transform_stack movie dt Tmin Tmax nT T_c L) h = Err e.
Proof.
  intros Hmv Hg Hx Hy Hfail Hbefore.
  rewrite call_transform_stack with (mv := mv) by auto.
  unfold transform_stack_value. rewrite Hg. simpl.
  unfold pixel_loop_value. rewrite for_each_nested.
  destruct (pixels_cut (xdim mv) (ydim mv) x y Hx Hy)
    as (l1 & l2 & Hcut & Hl1).
  rewrite Hcut, for_each_app.
  set (z := zeros (shape mv) Float32).
  set (body := fun (s : movies) (p : nat * nat) =>
         pixel_step periods mv dt T_c L (ydim mv * xdim mv) (ydim mv) s
           (fst p) (snd p)).
  assert (Hstep : forall done a s s',
            loop_inv periods dt T_c L mv done s -> In a l1 ->
            body s a = Ok s' -> loop_inv periods dt T_c L mv (done ++ [a]) s').
  { intros done [x' y'] s s' Hinv Hin Hb.
    destruct (Hl1 x' y' Hin) as (_ & Hx' & Hy').
    eapply pixel_step_inv; eauto. }
  destruct (for_each_progress (loop_inv periods dt T_c L mv) body l1 Hstep)
    with (done := @nil (nat * nat)) (s := (z, z, z, z)) as [s1 Hs1].
  - intros done [x' y'] s Hinv Hin.
    destruct (Hl1 x' y' Hin) as (Hvb & Hx' & Hy').
    destruct (Hbefore x' y' Hx' Hy' Hvb) as [c Hc].
    eapply pixel_step_progress; eauto.
  - apply loop_inv_init.
  - fold body. rewrite Hs1. simpl.
    pose proof (for_each_inv (loop_inv periods dt T_c L mv) body l1 Hstep
                  [] (z, z, z, z) s1 (loop_inv_init _ _ _ _ _) Hs1) as Hinv.
    unfold body at 1. simpl fst. simpl snd.
    rewrite (pixel_step_error periods dt T_c L mv _ s1 x y e Hinv Hx Hy Hfail).
    reflexivity.
Qed.

(** X9. The four movies of a returning call are four different new arrays:
    the store grows by exactly four objects and no two of the returned
    references are the same. *)
Theorem outputs_are_four_new_arrays
    (h h' : store) (movie : ref) (mv : ndarray) (ncpu_avail n_cpu : Z)
    (dt Tmin Tmax : Q) (nT : Z) (T_c L : option Q)
    (r1 r2 r3 r4 : ref) :
  nth_error h movie = Some mv ->
  transform_stack movie dt Tmin Tmax nT T_c L h = Ok ((r1, r2, r3, r4), h')
  \/ run_parallel ncpu_avail movie n_cpu dt Tmin Tmax nT T_c L h
     = Ok ((r1, r2, r3, r4), h') ->
  length h' = (length h + 4)%nat /\ NoDup [r1; r2; r3; r4].
Proof.
  intros Hmv Hrun.
  assert (Hno : forall a b c d : nat,
            a <> b -> a <> c -> a <> d -> b <> c -> b <> d -> c <> d ->
            NoDup [a; b; c; d]).
  { intros. repeat constructor; simpl; intuition. }
  destruct Hrun as [Hrun|Hrun].
  - rewrite transform_stack_store with (mv := mv) in Hrun by auto.
    destruct (transform_stack_value mv dt Tmin Tmax nT T_c L)
      as [[[[ph pe] po] am]|e]; [|discriminate].
    injection Hrun as <- <- <- <- <-. split.
    + unfold behind. rewrite length_app. reflexivity.
    + apply Hno; lia.
  - pose proof (run_parallel_returns _ _ _ _ _ _ _ _ _ _ _ Hrun) as Hn.
    rewrite run_parallel_store with (mv := mv) in Hrun by auto.
    destruct (run_parallel_value mv n_cpu dt Tmin Tmax nT T_c L)
      as [[[[ph pe] po] am]|e]; [|discriminate].
    injection Hrun as <- <- <- <- <-. split.
    + rewrite length_app. reflexivity.
    + apply Hno; lia.
Qed.

(* ------------------------------------------------------------------ *)
(** * Further properties of the pixel pipeline *)

Lemma take_out_of_range {A} (l : list A) idx i :
  In i idx -> (length l <= i)%nat ->
  take l idx = Err (IndexError "index is out of bounds").
Proof.
  intros Hin Hi. unfold take.
  induction idx as [|j idx IH]; [destruct Hin|]. simpl.
  unfold index at 1. destruct (nth_error l j) as [v|] eqn:E; simpl; auto.
  destruct Hin as [->|Hin].
  - apply nth_error_None in Hi. congruence.
  - now rewrite IH.
Qed.

(** X10. A ridge index that does not denote a row of the period grid makes
    the read-out [periods[ridge_ys]] raise [IndexError]; no output is
    produced for the pixel. *)
Theorem ridge_index_out_of_range
    (periods : list Q) (dt : Q) (signal : list Q)
    (modulus : matrix Q) (wlet : matrix complex)
    (ridge_ys : list nat) (aux : ridge_aux) (i : nat) :
  compute_spectrum signal dt periods = Returned (modulus, wlet) ->
  get_maxRidge_ys modulus = Returned (ridge_ys, aux) ->
  In i ridge_ys -> (length periods <= i)%nat ->
  ridge_readout periods dt signal
  = Err (IndexError "index is out of bounds").
Proof.
  intros Hspec Hridge Hin Hi. unfold ridge_readout.
  rewrite Hspec. simpl. rewrite Hridge. simpl.
  now rewrite (take_out_of_range periods ridge_ys i Hin Hi).
Qed.


(* ------------------------------------------------------------------ *)
(** * The frame loops: [down_sample] and [gaussian_blur] *)

Lemma getitem_frame_ok a f :
  (f < nframes a)%nat -> getitem_frame a f = Ok (frame_of a f).
Proof.
  intros Hf. unfold getitem_frame.
  destruct (Nat.ltb_spec f (nframes a)); [reflexivity|lia].
Qed.

Lemma Forall_list_set {A} (P : A -> Prop) l i v :
  Forall P l -> P v -> Forall P (list_set l i v).
Proof.
  intros Hl Hv. revert i.
  induction Hl as [|a l Ha Hl IH]; intros [|i]; simpl; auto.
Qed.

Lemma nth_range_map {B} (g : nat -> B) n i d :
  (i < n)%nat -> nth i (map g (range n)) d = g i.
Proof.
  intros Hi. unfold range.
  rewrite (nth_map_lt _ _ _ 0%nat) by now rewrite length_seq.
  now rewrite seq_nth.
Qed.

Lemma setitem_frame_spec out f im out' :
  wf out -> setitem_frame out f im = Ok out' ->
  (f < nframes out)%nat /\ fits im (ydim out) (xdim out)
  /\ wf out' /\ shape out' = shape out /\ dtype_of out' = dtype_of out
  /\ (forall y x, (y < ydim out)%nat -> (x < xdim out)%nat ->
        sample out' f y x = cast (dtype_of out) (image_at im y x))
  /\ (forall f' y x, f' <> f -> sample out' f' y x = sample out f' y x).
Proof.
  intros Hwf. unfold setitem_frame, fits, image_at.
  destruct (Nat.ltb_spec f (nframes out)) as [Hf|]; [|discriminate].
  destruct (im_shape im) as [ih iw]. simpl fst. simpl snd.
  destruct (_ && _) eqn:Hfit; [|discriminate].
  intros H; injection H as <-.
  apply wf_spec in Hwf. destruct Hwf as [HN Hfr].
  split; [exact Hf|]. split.
  { apply andb_true_iff in Hfit. destruct Hfit as [F1 F2].
    apply orb_true_iff in F1, F2. rewrite !Nat.eqb_eq in F1, F2. auto. }
  split.
  { apply wf_spec. unfold nframes, ydim, xdim in *; simpl. split.
    - now rewrite length_list_set.
    - apply Forall_list_set; auto. split.
      + unfold range. now rewrite length_map, length_seq.
      + apply Forall_forall. intros row Hrow. apply in_map_iff in Hrow.
        destruct Hrow as (y & <- & _). unfold range.
        now rewrite length_map, length_seq. }
  split; [reflexivity|]. split; [reflexivity|]. split.
  - intros y x Hy Hx. unfold sample; simpl.
    rewrite nth_list_set, Nat.eqb_refl. simpl.
    destruct (Nat.ltb_spec f (length (data out))); [|unfold nframes in *; lia].
    rewrite nth_range_map by auto. now rewrite nth_range_map by auto.
  - intros f' y x Hne. unfold sample; simpl.
    rewrite nth_list_set.
    destruct (Nat.eqb_spec f' f); [congruence|reflexivity].
Qed.

Lemma setitem_frame_ok out f im :
  (f < nframes out)%nat -> fits im (ydim out) (xdim out) ->
  exists out', setitem_frame out f im = Ok out'.
Proof.
  intros Hf [F1 F2]. unfold setitem_frame.
  destruct (Nat.ltb_spec f (nframes out)); [|lia].
  destruct (im_shape im) as [ih iw]. simpl in F1, F2.
  assert (((ih =? ydim out)%nat || (ih =? 1)%nat)
          && ((iw =? xdim out)%nat || (iw =? 1)%nat) = true) as ->.
  { apply andb_true_iff. split; apply orb_true_iff;
      rewrite !Nat.eqb_eq; assumption. }
  eauto.
Qed.

Section FrameLoop.

Variables (g : image -> lib_result image) (movie : ndarray).
Variables (shp : nat * nat * nat) (dt : dtype).

Let body (out : ndarray) (f : nat) : result ndarray :=
  let* fr := getitem_frame movie f in
  let* im := from_lib (g fr) in
  setitem_frame out f im.

Lemma frame_step_inv done out f out' :
  frames_inv g movie shp dt done out -> (f < nframes movie)%nat ->
  body out f = Ok out' ->
  frames_inv g movie shp dt (done ++ [f]) out'.
Proof.
  intros (Hwf & Hs & Hd & Hdone) Hf. unfold body.
  rewrite getitem_frame_ok by auto. simpl.
  destruct (g (frame_of movie f)) as [im|w] eqn:Hg; simpl; [|discriminate].
  intros Hset.
  destruct (setitem_frame_spec _ _ _ _ Hwf Hset)
    as (_ & Hfit & Hwf' & Hs' & Hd' & Hnew & Hold).
  assert (HY : ydim out' = ydim out) by (unfold ydim; now rewrite Hs').
  assert (HX : xdim out' = xdim out) by (unfold xdim; now rewrite Hs').
  split; [exact Hwf'|]. split; [congruence|]. split; [congruence|].
  rewrite HY, HX.
  intros f0 Hin. destruct (Nat.eq_dec f0 f) as [->|Hne].
  - exists im. split; [exact Hg|]. split; [exact Hfit|]. intros y x Hy Hx.
    rewrite <- Hd. now apply Hnew.
  - apply in_app_or in Hin. destruct Hin as [Hin|[Hin|[]]]; [|congruence].
    destruct (Hdone f0 Hin) as (im0 & Hg0 & Hfit0 & Hs0).
    exists im0. split; [exact Hg0|]. split; [exact Hfit0|].
    intros y x Hy Hx. rewrite Hold by auto. now apply Hs0.
Qed.

Lemma frame_loop_inv out r :
  wf out -> shape out = shp -> dtype_of out = dt ->
  frame_loop g movie out = Ok r ->
  frames_inv g movie shp dt (range (nframes movie)) r.
Proof.
  intros Hwf Hs Hd Hrun. unfold frame_loop in Hrun.
  apply (for_each_inv (frames_inv g movie shp dt)) with (done := [])
    in Hrun; auto.
  - intros done f s s' Hinv Hin Hb. apply in_seq in Hin.
    eapply frame_step_inv; eauto. lia.
  - repeat split; auto. intros f [].
Qed.

(** The library's exception on the first frame it rejects ends the loop. *)
Lemma frame_loop_first_failure out f w :
  wf out -> shape out = shp -> dtype_of out = dt ->
  (f < nframes movie)%nat -> (f < nframes out)%nat ->
  g (frame_of movie f) = Raised w ->
  (forall f', (f' < f)%nat ->
     exists im, g (frame_of movie f') = Returned im
                /\ fits im (ydim out) (xdim out)) ->
  frame_loop g movie out = Err (LibError w).
Proof.
  intros Hwf Hs Hd Hf Hfo Hraise Hbefore. unfold frame_loop, range.
  rewrite (seq_split_at (nframes movie) f Hf), for_each_app.
  fold body.
  assert (Hstep : forall done a s s',
            frames_inv g movie shp dt done s -> In a (seq 0 f) ->
            body s a = Ok s' -> frames_inv g movie shp dt (done ++ [a]) s').
  { intros done a s s' Hinv Hin Hb. apply in_seq in Hin.
    eapply frame_step_inv; eauto. lia. }
  destruct (for_each_progress (frames_inv g movie shp dt) body (seq 0 f) Hstep)
    with (done := @nil nat) (s := out) as [s1 Hs1].
  - intros done a s (Hwfs & Hss & _) Hin. apply in_seq in Hin.
    unfold body. rewrite getitem_frame_ok by lia. simpl.
    destruct (Hbefore a) as (im & -> & Hfit); [lia|]. simpl.
    apply setitem_frame_ok.
    + unfold nframes in *. rewrite Hss, <- Hs. lia.
    + unfold ydim, xdim in *. now rewrite Hss, <- Hs.
  - repeat split; auto. intros f0 [].
  - rewrite Hs1. simpl. unfold body at 1.
    rewrite getitem_frame_ok by auto. simpl. now rewrite Hraise.
Qed.

End FrameLoop.

(** X12. A returning [down_sample] had [scale_factor <= 1] and a movie with
    at least one frame; its result keeps the frame count, takes the spatial
    shape of the rescaled first frame, has 64-bit elements, and every frame
    of it is the rescaled frame of the input. *)
Theorem down_sample_result (movie ds : ndarray) (scale_factor : Q) :
  down_sample movie scale_factor = Ok ds ->
  scale_factor <= 1 /\ (0 < nframes movie)%nat
  /\ exists frame1,
       rescale (frame_of movie 0) scale_factor = Returned frame1
       /\ wf ds
       /\ shape ds
          = (nframes movie, fst (im_shape frame1), snd (im_shape frame1))
       /\ dtype_of ds = Float64
       /\ forall f, (f < nframes movie)%nat ->
            exists im,
              rescale (frame_of movie f) scale_factor = Returned im
              /\ fits im (fst (im_shape frame1)) (snd (im_shape frame1))
              /\ forall y x,
                   (y < fst (im_shape frame1))%nat ->
                   (x < snd (im_shape frame1))%nat ->
                   sample ds f y x = image_at im y x.
Proof.
  unfold down_sample.
  destruct (Qlt_le_dec 1 scale_factor) as [|Hle]; [discriminate|].
  unfold getitem_frame at 1.
  destruct (Nat.ltb_spec 0 (nframes movie)) as [Hpos|]; [|discriminate].
  simpl rbind. fold (frame_of movie 0).
  destruct (rescale (frame_of movie 0) scale_factor) as [frame1|w] eqn:H1;
    [|discriminate].
  simpl rbind. intros Hloop.
  split; [exact Hle|]. split; [exact Hpos|]. exists frame1.
  split; [reflexivity|].
  set (shp := (nframes movie, fst (im_shape frame1), snd (im_shape frame1))).
  destruct (frame_loop_inv (fun fr => rescale fr scale_factor) movie
              shp Float64 (zeros shp Float64) ds)
    as (Hwf & Hs & Hd & Hfr); auto using wf_zeros, shape_zeros, dtype_zeros.
  split; [exact Hwf|]. split; [exact Hs|]. split; [exact Hd|].
  assert (HY : ydim ds = fst (im_shape frame1))
    by (unfold ydim; now rewrite Hs).
  assert (HX : xdim ds = snd (im_shape frame1))
    by (unfold xdim; now rewrite Hs).
  rewrite HY, HX in Hfr.
  intros f Hf. apply Hfr. apply in_seq. lia.
Qed.

(** X14. A returning [gaussian_blur] gives a movie of the input's shape
    with 64-bit elements, every frame of which is the smoothed frame of the
    input. *)
Theorem gaussian_blur_result (movie gb : ndarray) (sigma : Q) :
  gaussian_blur movie sigma = Ok gb ->
  wf gb /\ shape gb = shape movie /\ dtype_of gb = Float64
  /\ forall f, (f < nframes movie)%nat ->
       exists im,
         gaussian (frame_of movie f) sigma = Returned im
         /\ fits im (ydim movie) (xdim movie)
         /\ forall y x, (y < ydim movie)%nat -> (x < xdim movie)%nat ->
              sample gb f y x = image_at im y x.
Proof.
  unfold gaussian_blur. intros Hloop.
  destruct (frame_loop_inv (fun fr => gaussian fr sigma) movie
              (shape movie) Float64 (zeros (shape movie) Float64) gb)
    as (Hwf & Hs & Hd & Hfr); auto using wf_zeros, shape_zeros, dtype_zeros.
  split; [exact Hwf|]. split; [exact Hs|]. split; [exact Hd|].
  assert (HY : ydim gb = ydim movie) by (unfold ydim; now rewrite Hs).
  assert (HX : xdim gb = xdim movie) by (unfold xdim; now rewrite Hs).
  rewrite HY, HX in Hfr.
  intros f Hf. apply Hfr. apply in_seq. lia.
Qed.

(** X13. A movie without frames: [down_sample] raises [IndexError] when it
    reads the first frame (for every [scale_factor <= 1]), whereas
    [gaussian_blur], which reads no frame outside its loop, returns the
    empty movie of that shape for every [sigma]. *)
Theorem preprocessing_of_empty_movie
    (movie : ndarray) (scale_factor sigma : Q) :
  nframes movie = 0%nat ->
  (scale_factor <= 1 ->
   down_sample movie scale_factor
   = Err (IndexError "index is out of bounds"))
  /\ gaussian_blur movie sigma = Ok (zeros (shape movie) Float64).
Proof.
  intros HN. split.
  - intros Hle. unfold down_sample.
    destruct (Qlt_le_dec 1 scale_factor) as [Hgt|_]; [exfalso; lra|].
    unfold getitem_frame. now rewrite HN.
  - unfold gaussian_blur. rewrite HN. reflexivity.
Qed.

(** X15. An exception of the smoothing library on a frame, all frames
    before it having been smoothed to images of the frame shape, ends
    [gaussian_blur] with that exception: no partial movie is returned. *)
Theorem gaussian_blur_library_error
    (movie : ndarray) (sigma : Q) (f : nat) (w : string) :
  (f < nframes movie)%nat ->
  gaussian (frame_of movie f) sigma = Raised w ->
  (forall f', (f' < f)%nat ->
     exists im, gaussian (frame_of movie f') sigma = Returned im
                /\ fits im (ydim movie) (xdim movie)) ->
  gaussian_blur movie sigma = Err (LibError w).
Proof.
  intros Hf Hraise Hbefore. unfold gaussian_blur.
  set (out := zeros (shape movie) Float64).
  assert (Hs : shape out = shape movie) by apply shape_zeros.
  apply (frame_loop_first_failure (fun fr => gaussian fr sigma) movie
           (shape movie) Float64 out f w);
    [apply wf_zeros | exact Hs | apply dtype_zeros | exact Hf
    | unfold nframes in *; now rewrite Hs | exact Hraise
    | unfold ydim, xdim in *; now rewrite Hs].
Qed.

(** X16. The same for [down_sample] with [scale_factor <= 1]: an exception
    of the resampling library on a frame, all frames before it having been
    rescaled to images of the first rescaled frame's shape, ends the call
    with that exception. *)
Theorem down_sample_library_error
    (movie : ndarray) (scale_factor : Q) (f : nat) (w : string) :
  scale_factor <= 1 -> (f < nframes movie)%nat ->
  rescale (frame_of movie f) scale_factor = Raised w ->
  (forall f', (f' < f)%nat ->
     exists im frame1,
       rescale (frame_of movie f') scale_factor = Returned im
       /\ rescale (frame_of movie 0) scale_factor = Returned frame1
       /\ fits im (fst (im_shape frame1)) (snd (im_shape frame1))) ->
  down_sample movie scale_factor = Err (LibError w).
Proof.
  intros Hle Hf Hraise Hbefore. unfold down_sample.
  destruct (Qlt_le_dec 1 scale_factor) as [Hgt|_]; [exfalso; lra|].
  unfold getitem_frame at 1.
  destruct (Nat.ltb_spec 0 (nframes movie)); [|lia].
  simpl rbind. fold (frame_of movie 0).
  destruct (Nat.eq_dec f 0) as [->|Hne].
  - rewrite Hraise. reflexivity.
  - destruct (Hbefore 0%nat) as (im0 & frame1 & _ & H1 & _); [lia|].
    rewrite H1. simpl rbind.
    set (shp := (nframes movie, fst (im_shape frame1),
                 snd (im_shape frame1))).
    apply (frame_loop_first_failure (fun fr => rescale fr scale_factor) movie
             shp Float64 (zeros shp Float64) f w);
      [apply wf_zeros | apply shape_zeros | apply dtype_zeros | exact Hf
      | unfold nframes at 1; now rewrite shape_zeros | exact Hraise |].
    unfold ydim, xdim. rewrite shape_zeros. simpl fst. simpl snd.
    intros f' Hf'. destruct (Hbefore f' Hf') as (im & fr1 & Him & H1' & Hfit).
    exists im. split; [exact Him|].
    assert (fr1 = frame1) by congruence. subst fr1. exact Hfit.
Qed.

(** X17. The result of [run_parallel] does not depend on the worker count:
    two counts between one and the available capacity return the same four
    movies, or both raise. *)
Theorem run_parallel_independent_of_worker_count
    (h : store) (movie : ref) (mv : ndarray) (ncpu_avail n1 n2 : Z)
    (dt Tmin Tmax : Q) (nT : Z) (T_c L : option Q)
    (o : ndarray * ndarray * ndarray * ndarray) :
  nth_error h movie = Some mv -> wf mv ->
  (1 <= n1 <= ncpu_avail)%Z -> (1 <= n2 <= ncpu_avail)%Z ->
  call (run_parallel ncpu_avail movie n1 dt Tmin Tmax nT T_c L) h = Ok o
  <-> call (run_parallel ncpu_avail movie n2 dt Tmin Tmax nT T_c L) h = Ok o.
Proof.
  intros Hmv Hwf H1 H2.
  rewrite !call_run_parallel with (mv := mv) by auto.
  rewrite !run_parallel_value_spec by (auto; lia). reflexivity.
Qed.

End Model.

(* ------------------------------------------------------------------ *)
(** * The theorems at concrete inputs *)

Lemma run_parallel_matches_transform_stack_witness :
  nth_error [Toy.movie] 0 = Some Toy.movie
  /\ wf Toy.movie
  /\ (1 <= 2 <= Z.of_nat (ydim Toy.movie))%Z
  /\ (2 <= 4)%Z
  /\ forall o,
       call (@run_parallel Toy.numpy Toy.pyboat 4 0%nat 2 1 10 30 5
               None None) [Toy.movie] = Ok o
       <-> call (@transform_stack Toy.numpy Toy.pyboat 0%nat 1 10 30 5
                   None None) [Toy.movie] = Ok o.
Proof.
  change (ydim Toy.movie) with 2%nat.
  split; [reflexivity|]. split; [reflexivity|].
  split; [lia|]. split; [lia|].
  intros o.
  apply (@run_parallel_matches_transform_stack Toy.numpy Toy.pyboat
           [Toy.movie] 0%nat Toy.movie 4 2 1 10 30 5 None None o);
    [reflexivity | reflexivity | change (ydim Toy.movie) with 2%nat; lia
    | lia].
Defined.

Lemma run_parallel_over_request_witness :
  (4 < 5)%Z
  /\ @run_parallel Toy.numpy Toy.pyboat 4 0%nat 5 1 10 30 5 None None
       [Toy.movie]
     = Err (NameError "ncpu_req").
Proof.
  split; [lia|].
  apply (@run_parallel_over_request Toy.numpy Toy.pyboat
           [Toy.movie] 0%nat 4 5 1 10 30 5 None None).
  lia.
Defined.

(** C3 fails on the code: with a reversed period range ([Tmin = 6],
    [Tmax = 2]) and with a negative sampling interval ([dt = -1]),
    [transform_stack] raises nothing and returns four movies. *)
Lemma transform_stack_accepts_malformed_parameters :
  (2 < 6 /\ -1 <= 0)
  /\ call (@transform_stack Toy.numpy Toy.pyboat 0%nat 1 6 2 3 None None)
          [Toy.clip]
     = Ok (mk_ndarray (2, 1, 1)%nat Float32 [[[5]]; [[3]]],
           mk_ndarray (2, 1, 1)%nat Float32 [[[6]]; [[6]]],
           mk_ndarray (2, 1, 1)%nat Float32 [[[25]]; [[9]]],
           mk_ndarray (2, 1, 1)%nat Float32 [[[100]]; [[36]]])
  /\ call (@transform_stack Toy.numpy Toy.pyboat 0%nat (-1) 2 6 3 None None)
          [Toy.clip]
     = Ok (mk_ndarray (2, 1, 1)%nat Float32 [[[5]]; [[3]]],
           mk_ndarray (2, 1, 1)%nat Float32 [[[6]]; [[6]]],
           mk_ndarray (2, 1, 1)%nat Float32 [[[25]]; [[9]]],
           mk_ndarray (2, 1, 1)%nat Float32 [[[100]]; [[36]]]).
Proof.
  split; [split; [reflexivity | discriminate]|].
  split; vm_compute; reflexivity.
Qed.

Lemma transform_stack_validates_only_negative_nT_witness :
  nth_error [Toy.clip] 0 = Some Toy.clip
  /\ @transform_stack Toy.numpy Toy.pyboat 0%nat 1 2 6 (-1) None None
       [Toy.clip]
     = Err (ValueError "Number of samples must be non-negative.")
  /\ exists periods,
       linspace 6 2 3 = Ok periods
       /\ length periods = 3%nat
       /\ call (@transform_stack Toy.numpy Toy.pyboat 0%nat 1 6 2 3
                  None None) [Toy.clip]
          = @pixel_loop_value Toy.numpy Toy.pyboat periods Toy.clip 1
              None None
              (zeros (2, 1, 1)%nat Float32, zeros (2, 1, 1)%nat Float32,
               zeros (2, 1, 1)%nat Float32, zeros (2, 1, 1)%nat Float32).
Proof.
  split; [reflexivity|]. split.
  - apply (proj1 (@transform_stack_validates_only_negative_nT
                    Toy.numpy Toy.pyboat [Toy.clip] 0%nat Toy.clip
                    1 2 6 (-1) None None eq_refl)).
    lia.
  - apply (proj2 (@transform_stack_validates_only_negative_nT
                    Toy.numpy Toy.pyboat [Toy.clip] 0%nat Toy.clip
                    1 6 2 3 None None eq_refl)).
    lia.
Defined.


Lemma run_parallel_row_partition_witness :
  nth_error [Toy.movie] 0 = Some Toy.movie
  /\ wf Toy.movie /\ (1 <= ydim Toy.movie)%nat
  /\ (1 <= 2 <= Z.of_nat (ydim Toy.movie))%Z /\ (2 <= 4)%Z
  /\ exists movie_split ph pe po am,
       array_split Toy.movie 2 = Ok movie_split
       /\ map ydim movie_split = [1; 1]%nat
       /\ concatenate movie_split = Ok Toy.movie
       /\ call (@run_parallel Toy.numpy Toy.pyboat 4 0%nat 2 1 2 6 3
                  None None) [Toy.movie]
          = Ok (ph, pe, po, am)
       /\ slices ph 0 (map ydim movie_split)
          = [mk_ndarray (3, 1, 2)%nat Float32
               [[[5; 4]]; [[1; 0]]; [[-3; -4]]];
             mk_ndarray (3, 1, 2)%nat Float32
               [[[3; -2]]; [[-1; -6]]; [[-5; -10]]]].
Proof.
  change (ydim Toy.movie) with 2%nat.
  split; [reflexivity|]. split; [reflexivity|]. split; [lia|].
  split; [lia|]. split; [lia|].
  destruct (@run_parallel_row_partition Toy.numpy Toy.pyboat
              [Toy.movie] 0%nat Toy.movie 4 2 1 2 6 3 None None)
    as (chunks & Hs & _ & _ & _ & _ & Hcat & _ & Hres);
    [reflexivity | reflexivity | change (ydim Toy.movie) with 2%nat; lia
    | change (ydim Toy.movie) with 2%nat; lia | lia |].
  assert (Hc : chunks = [slice_rows Toy.movie 0 1; slice_rows Toy.movie 1 2]).
  { vm_compute in Hs. injection Hs as <-. vm_compute. reflexivity. }
  destruct (Hres
    [(mk_ndarray (3, 1, 2)%nat Float32 [[[5; 4]]; [[1; 0]]; [[-3; -4]]],
      mk_ndarray (3, 1, 2)%nat Float32 [[[6; 6]]; [[6; 6]]; [[6; 6]]],
      mk_ndarray (3, 1, 2)%nat Float32 [[[25; 16]]; [[1; 0]]; [[9; 16]]],
      mk_ndarray (3, 1, 2)%nat Float32
        [[[375; 288]]; [[15; 0]]; [[135; 288]]]);
     (mk_ndarray (3, 1, 2)%nat Float32 [[[3; -2]]; [[-1; -6]]; [[-5; -10]]],
      mk_ndarray (3, 1, 2)%nat Float32 [[[6; 2]]; [[6; 2]]; [[6; 2]]],
      mk_ndarray (3, 1, 2)%nat Float32 [[[9; 4]]; [[1; 36]]; [[25; 100]]],
      mk_ndarray (3, 1, 2)%nat Float32
        [[[189; 96]]; [[21; 864]]; [[525; 2400]]])])
    as (ph & pe & po & am & Hcall & _ & _ & _ & _ & Hph & _).
  { rewrite Hc. vm_compute. reflexivity. }
  exists chunks, ph, pe, po, am.
  split; [exact Hs|]. split; [rewrite Hc; reflexivity|].
  split; [exact Hcat|]. split; [exact Hcall|]. exact Hph.
Defined.

Lemma outputs_shape_and_dtype_witness :
  nth_error [Toy.clip] 0 = Some Toy.clip
  /\ wf Toy.clip
  /\ call (@transform_stack Toy.numpy Toy.pyboat 0%nat 1 2 6 3 None None)
          [Toy.clip]
     = Ok (mk_ndarray (2, 1, 1)%nat Float32 [[[5]]; [[3]]],
           mk_ndarray (2, 1, 1)%nat Float32 [[[6]]; [[6]]],
           mk_ndarray (2, 1, 1)%nat Float32 [[[25]]; [[9]]],
           mk_ndarray (2, 1, 1)%nat Float32 [[[100]]; [[36]]])
  /\ Forall (fun o => wf o /\ shape o = shape Toy.clip
                      /\ dtype_of o = Float32)
            [mk_ndarray (2, 1, 1)%nat Float32 [[[5]]; [[3]]];
             mk_ndarray (2, 1, 1)%nat Float32 [[[6]]; [[6]]];
             mk_ndarray (2, 1, 1)%nat Float32 [[[25]]; [[9]]];
             mk_ndarray (2, 1, 1)%nat Float32 [[[100]]; [[36]]]].
Proof.
  split; [reflexivity|]. split; [reflexivity|].
  split; [vm_compute; reflexivity|].
  apply (@outputs_shape_and_dtype Toy.numpy Toy.pyboat
           [Toy.clip] 0%nat Toy.clip 4 1 1 2 6 3 None None);
    [reflexivity | reflexivity |].
  left. vm_compute. reflexivity.
Defined.

Lemma input_movie_unchanged_witness :
  nth_error [Toy.clip] 0 = Some Toy.clip
  /\ @transform_stack Toy.numpy Toy.pyboat 0%nat 1 2 6 3 None None [Toy.clip]
     = Ok ((2, 1, 3, 4)%nat,
           [Toy.clip;
            mk_ndarray (2, 1, 1)%nat Float32 [[[6]]; [[6]]];
            mk_ndarray (2, 1, 1)%nat Float32 [[[5]]; [[3]]];
            mk_ndarray (2, 1, 1)%nat Float32 [[[25]]; [[9]]];
            mk_ndarray (2, 1, 1)%nat Float32 [[[100]]; [[36]]]])
  /\ nth_error
       [Toy.clip;
        mk_ndarray (2, 1, 1)%nat Float32 [[[6]]; [[6]]];
        mk_ndarray (2, 1, 1)%nat Float32 [[[5]]; [[3]]];
        mk_ndarray (2, 1, 1)%nat Float32 [[[25]]; [[9]]];
        mk_ndarray (2, 1, 1)%nat Float32 [[[100]]; [[36]]]] 0
     = Some Toy.clip.
Proof.
  split; [reflexivity|]. split; [vm_compute; reflexivity|].
  refine (proj1 (@input_movie_unchanged Toy.numpy Toy.pyboat
                   [Toy.clip] _ 0%nat Toy.clip 4 1 1 2 6 3 None None
                   2%nat 1%nat 3%nat 4%nat eq_refl (or_introl _))).
  vm_compute. reflexivity.
Defined.

Lemma preprocessing_in_transform_stack_witness :
  nth_error [Toy.clip] 0 = Some Toy.clip
  /\ call (@transform_stack Toy.numpy Toy.pyboat 0%nat 1 2 6 3
             (Some 4) (Some 2)) [Toy.clip]
     = Ok (mk_ndarray (2, 1, 1)%nat Float32 [[[6]]; [[5]]],
           mk_ndarray (2, 1, 1)%nat Float32 [[[6]]; [[6]]],
           mk_ndarray (2, 1, 1)%nat Float32 [[[36]]; [[25]]],
           mk_ndarray (2, 1, 1)%nat Float32 [[[36]]; [[25]]])
  /\ exists periods trend detrended signal modulus wlet,
       linspace 2 6 3 = Ok periods
       /\ Toy.smooth [1; 3] 4 1 = Returned trend
       /\ np_sub [1; 3] trend = Ok detrended
       /\ Toy.normalize detrended 2 1 = Returned signal
       /\ Toy.spectrum signal 1 periods = Returned (modulus, wlet).
Proof.
  split; [reflexivity|]. split; [vm_compute; reflexivity|].
  destruct (@preprocessing_in_transform_stack Toy.numpy Toy.pyboat
              [Toy.clip] 0%nat Toy.clip 1 2 6 3 (Some 4) (Some 2)
              (mk_ndarray (2, 1, 1)%nat Float32 [[[6]]; [[5]]])
              (mk_ndarray (2, 1, 1)%nat Float32 [[[6]]; [[6]]])
              (mk_ndarray (2, 1, 1)%nat Float32 [[[36]]; [[25]]])
              (mk_ndarray (2, 1, 1)%nat Float32 [[[36]]; [[25]]]))
    as (periods & Hg & Hpix);
    [reflexivity | vm_compute; reflexivity |].
  destruct (Hpix 0%nat 0%nat)
    as (detrended & signal & modulus & wlet & (trend & Ht & Hd & _) & Hn
        & Hs & _);
    [vm_compute; lia | vm_compute; lia |].
  exists periods, trend, detrended, signal, modulus, wlet.
  repeat split; assumption.
Defined.

(* ------------------------------------------------------------------ *)
(** * The further properties at concrete inputs *)

Lemma run_parallel_any_worker_count_witness :
  nth_error [Toy.movie] 0 = Some Toy.movie
  /\ wf Toy.movie
  /\ (1 <= 3 <= 4)%Z
  /\ (forall o,
        call (@run_parallel Toy.numpy Toy.pyboat 4 0%nat 3 1 10 30 5
                None None) [Toy.movie] = Ok o
        <-> call (@transform_stack Toy.numpy Toy.pyboat 0%nat 1 10 30 5
                    None None) [Toy.movie] = Ok o).
Proof.
  split; [reflexivity|]. split; [reflexivity|]. split; [lia|].
  apply (@run_parallel_any_worker_count Toy.numpy Toy.pyboat
           [Toy.movie] 0%nat Toy.movie 4 3 1 10 30 5 None None);
    [reflexivity | reflexivity | lia].
Defined.

Lemma run_parallel_rejects_nonpositive_count_witness :
  (0 < 1)%Z /\ (0 <= 4)%Z
  /\ @run_parallel Toy.numpy Toy.pyboat 4 0%nat 0 1 10 30 5 None None
       [Toy.movie]
     = Err (ValueError "Number of processes must be at least 1").
Proof.
  split; [lia|]. split; [lia|].
  apply (@run_parallel_rejects_nonpositive_count Toy.numpy Toy.pyboat
           [Toy.movie] 0%nat 4 0 1 10 30 5 None None); lia.
Defined.

Lemma array_split_surplus_workers_witness :
  (Z.of_nat (ydim Toy.movie) < 3)%Z
  /\ exists chunks,
       array_split Toy.movie 3 = Ok chunks
       /\ map ydim chunks = [1; 1; 0]%nat.
Proof.
  change (ydim Toy.movie) with 2%nat. split; [lia|].
  destruct (array_split_surplus_workers Toy.movie 3) as (chunks & Hs & Hy).
  - change (ydim Toy.movie) with 2%nat. lia.
  - exists chunks. split; [exact Hs|]. exact Hy.
Defined.

Lemma transform_stack_no_pixels_witness :
  nth_error [ToyCases.no_rows] 0 = Some ToyCases.no_rows
  /\ (0 <= 3)%Z
  /\ ydim ToyCases.no_rows = 0%nat
  /\ call (@transform_stack Toy.numpy Toy.pyboat 0%nat 1 6 2 3 None None)
          [ToyCases.no_rows]
     = Ok (zeros (2, 0, 3)%nat Float32, zeros (2, 0, 3)%nat Float32,
           zeros (2, 0, 3)%nat Float32, zeros (2, 0, 3)%nat Float32).
Proof.
  split; [reflexivity|]. split; [lia|]. split; [reflexivity|].
  apply (@transform_stack_no_pixels Toy.numpy Toy.pyboat
           [ToyCases.no_rows] 0%nat ToyCases.no_rows 1 6 2 3 None None);
    [reflexivity | lia | left; reflexivity].
Defined.

Lemma transform_stack_pixelwise_witness :
  nth_error [Toy.clip] 0 = Some Toy.clip
  /\ call (@transform_stack Toy.numpy Toy.pyboat 0%nat 1 2 6 3 None None)
          [Toy.clip]
     = Ok (mk_ndarray (2, 1, 1)%nat Float32 [[[5]]; [[3]]],
           mk_ndarray (2, 1, 1)%nat Float32 [[[6]]; [[6]]],
           mk_ndarray (2, 1, 1)%nat Float32 [[[25]]; [[9]]],
           mk_ndarray (2, 1, 1)%nat Float32 [[[100]]; [[36]]])
  /\ exists periods phases ridge_periods powers amplitudes,
       linspace 2 6 3 = Ok periods
       /\ @transform_pixel Toy.numpy Toy.pyboat periods 1 None None
            (col Toy.clip 0 0)
          = Ok (phases, ridge_periods, powers, amplitudes)
       /\ @stored Toy.numpy 2 phases = Ok [5; 3]
       /\ @stored Toy.numpy 2 ridge_periods = Ok [6; 6].
Proof.
  split; [reflexivity|]. split; [vm_compute; reflexivity|].
  destruct (@transform_stack_pixelwise Toy.numpy Toy.pyboat
              [Toy.clip] 0%nat Toy.clip 1 2 6 3 None None
              (mk_ndarray (2, 1, 1)%nat Float32 [[[5]]; [[3]]])
              (mk_ndarray (2, 1, 1)%nat Float32 [[[6]]; [[6]]])
              (mk_ndarray (2, 1, 1)%nat Float32 [[[25]]; [[9]]])
              (mk_ndarray (2, 1, 1)%nat Float32 [[[100]]; [[36]]]))
    as (periods & Hg & Hpix);
    [reflexivity | vm_compute; reflexivity |].
  destruct (Hpix 0%nat 0%nat) as (phases & rp & pw & amp & Ht & S1 & S2 & _);
    [vm_compute; lia | vm_compute; lia |].
  exists periods, phases, rp, pw, amp. repeat split; assumption.
Defined.

Lemma transform_stack_pixel_local_witness :
  nth_error [ToyCases.twins] 0 = Some ToyCases.twins
  /\ call (@transform_stack Toy.numpy Toy.pyboat 0%nat 1 2 6 3 None None)
          [ToyCases.twins]
     = Ok (mk_ndarray (2, 1, 2)%nat Float32 [[[5; 5]]; [[3; 3]]],
           mk_ndarray (2, 1, 2)%nat Float32 [[[6; 6]]; [[6; 6]]],
           mk_ndarray (2, 1, 2)%nat Float32 [[[25; 25]]; [[9; 9]]],
           mk_ndarray (2, 1, 2)%nat Float32 [[[100; 100]]; [[36; 36]]])
  /\ col ToyCases.twins 0 0 = col ToyCases.twins 0 1
  /\ col (mk_ndarray (2, 1, 2)%nat Float32 [[[5; 5]]; [[3; 3]]]) 0 0
     = col (mk_ndarray (2, 1, 2)%nat Float32 [[[5; 5]]; [[3; 3]]]) 0 1.
Proof.
  split; [reflexivity|]. split; [vm_compute; reflexivity|].
  split; [reflexivity|].
  refine (proj1 (@transform_stack_pixel_local Toy.numpy Toy.pyboat
            [ToyCases.twins] [ToyCases.twins] 0%nat 0%nat
            ToyCases.twins ToyCases.twins 1 2 6 3 None None
            _ (mk_ndarray (2, 1, 2)%nat Float32 [[[6; 6]]; [[6; 6]]])
            (mk_ndarray (2, 1, 2)%nat Float32 [[[25; 25]]; [[9; 9]]])
            (mk_ndarray (2, 1, 2)%nat Float32 [[[100; 100]]; [[36; 36]]])
            _ (mk_ndarray (2, 1, 2)%nat Float32 [[[6; 6]]; [[6; 6]]])
            (mk_ndarray (2, 1, 2)%nat Float32 [[[25; 25]]; [[9; 9]]])
            (mk_ndarray (2, 1, 2)%nat Float32 [[[100; 100]]; [[36; 36]]])
            0%nat 0%nat 0%nat 1%nat
            eq_refl eq_refl _ _ eq_refl _ _ _ _ eq_refl));
    try (vm_compute; reflexivity); vm_compute; lia.
Defined.

Lemma transform_stack_all_or_nothing_witness :
  nth_error [Toy.clip] 0 = Some Toy.clip
  /\ linspace 2 6 3 = Ok [4 # 2; 8 # 2; 6]
  /\ ((exists o,
         call (@transform_stack Toy.numpy Toy.pyboat 0%nat 1 2 6 3
                 None None) [Toy.clip] = Ok o)
      <-> (forall x y, (x < xdim Toy.clip)%nat -> (y < ydim Toy.clip)%nat ->
             exists c,
               @pixel_cols Toy.numpy Toy.pyboat [4 # 2; 8 # 2; 6] 1
                 None None (nframes Toy.clip) (col Toy.clip y x) = Ok c)).
Proof.
  split; [reflexivity|]. split; [vm_compute; reflexivity|].
  apply (@transform_stack_all_or_nothing Toy.numpy Toy.pyboat
           [Toy.clip] 0%nat Toy.clip [4 # 2; 8 # 2; 6] 1 2 6 3 None None);
    [reflexivity | vm_compute; reflexivity].
Defined.

Lemma transform_stack_first_failure_witness :
  nth_error [Toy.movie] 0 = Some Toy.movie
  /\ linspace 2 6 3 = Ok [4 # 2; 8 # 2; 6]
  /\ (0 < xdim Toy.movie)%nat /\ (1 < ydim Toy.movie)%nat
  /\ @pixel_cols Toy.numpy ToyCases.picky_pyboat [4 # 2; 8 # 2; 6] 1
       (Some 2) None (nframes Toy.movie) (col Toy.movie 1 0)
     = Err (LibError "series rejected")
  /\ (exists c,
        @pixel_cols Toy.numpy ToyCases.picky_pyboat [4 # 2; 8 # 2; 6] 1
          (Some 2) None (nframes Toy.movie) (col Toy.movie 0 0) = Ok c)
  /\ call (@transform_stack Toy.numpy ToyCases.picky_pyboat 0%nat 1 2 6 3
             (Some 2) None) [Toy.movie]
     = Err (LibError "series rejected").
Proof.
  split; [reflexivity|]. split; [vm_compute; reflexivity|].
  split; [vm_compute; lia|]. split; [vm_compute; lia|].
  split; [vm_compute; reflexivity|].
  split; [eexists; vm_compute; reflexivity|].
  apply (@transform_stack_first_failure Toy.numpy ToyCases.picky_pyboat
           [Toy.movie] 0%nat Toy.movie [4 # 2; 8 # 2; 6] 1 2 6 3
           (Some 2) None 0%nat 1%nat (LibError "series rejected"));
    [reflexivity | vm_compute; reflexivity | vm_compute; lia
    | vm_compute; lia | vm_compute; reflexivity |].
  intros x' y' _ _ Hb.
  assert (Hx : x' = 0%nat) by (unfold visited_before in Hb; lia).
  assert (Hy : y' = 0%nat) by (unfold visited_before in Hb; lia).
  subst x' y'. eexists. vm_compute. reflexivity.
Defined.

Lemma outputs_are_four_new_arrays_witness :
  nth_error [Toy.clip] 0 = Some Toy.clip
  /\ @transform_stack Toy.numpy Toy.pyboat 0%nat 1 2 6 3 None None [Toy.clip]
     = Ok ((2, 1, 3, 4)%nat,
           [Toy.clip;
            mk_ndarray (2, 1, 1)%nat Float32 [[[6]]; [[6]]];
            mk_ndarray (2, 1, 1)%nat Float32 [[[5]]; [[3]]];
            mk_ndarray (2, 1, 1)%nat Float32 [[[25]]; [[9]]];
            mk_ndarray (2, 1, 1)%nat Float32 [[[100]]; [[36]]]])
  /\ NoDup [2; 1; 3; 4]%nat.
Proof.
  split; [reflexivity|]. split; [vm_compute; reflexivity|].
  refine (proj2 (@outputs_are_four_new_arrays Toy.numpy Toy.pyboat
                   [Toy.clip] _ 0%nat Toy.clip 4 1 1 2 6 3 None None
                   2%nat 1%nat 3%nat 4%nat eq_refl (or_introl _))).
  vm_compute. reflexivity.
Defined.

Lemma ridge_index_out_of_range_witness :
  @compute_spectrum ToyCases.stray_pyboat [1; 3; 5] 1 [2; 4; 6]
  = Returned ([[1; 1; 9]; [9; 1; 1]; [25; 9; 1]],
              [[(1, 2); (3, 2); (5, 2)]; [(1, 4); (3, 4); (5, 4)];
               [(1, 6); (3, 6); (5, 6)]])
  /\ @get_maxRidge_ys ToyCases.stray_pyboat
       [[1; 1; 9]; [9; 1; 1]; [25; 9; 1]]
     = Returned ([3; 3; 3]%nat, tt)
  /\ In 3%nat [3; 3; 3]%nat
  /\ (length [2; 4; 6] <= 3)%nat
  /\ @ridge_readout Toy.numpy ToyCases.stray_pyboat [2; 4; 6] 1 [1; 3; 5]
     = Err (IndexError "index is out of bounds").
Proof.
  split; [reflexivity|]. split; [reflexivity|].
  split; [simpl; auto|]. split; [simpl; lia|].
  apply (@ridge_index_out_of_range Toy.numpy ToyCases.stray_pyboat
           [2; 4; 6] 1 [1; 3; 5]
           [[1; 1; 9]; [9; 1; 1]; [25; 9; 1]]
           [[(1, 2); (3, 2); (5, 2)]; [(1, 4); (3, 4); (5, 4)];
            [(1, 6); (3, 6); (5, 6)]]
           [3; 3; 3]%nat tt 3%nat);
    [reflexivity | reflexivity | simpl; auto | simpl; lia].
Defined.


Lemma down_sample_result_witness :
  @down_sample Toy.numpy Toy.skimage Toy.movie (1 # 2) = Ok Toy.movie
  /\ (1 # 2) <= 1 /\ (0 < nframes Toy.movie)%nat
  /\ exists frame1,
       @rescale Toy.skimage (frame_of Toy.movie 0) (1 # 2) = Returned frame1
       /\ shape Toy.movie
          = (nframes Toy.movie, fst (im_shape frame1), snd (im_shape frame1)).
Proof.
  split; [vm_compute; reflexivity|].
  destruct (@down_sample_result Toy.numpy Toy.skimage Toy.movie Toy.movie
              (1 # 2))
    as (Hle & Hpos & frame1 & H1 & _ & Hs & _);
    [vm_compute; reflexivity|].
  split; [exact Hle|]. split; [exact Hpos|].
  exists frame1. split; assumption.
Defined.

Lemma gaussian_blur_result_witness :
  @gaussian_blur Toy.numpy ToyFilters.skfilters Toy.movie 2
  = Ok (mk_ndarray (3, 2, 2)%nat Float64
          [[[3 # 2; 3 # 2]; [7 # 2; 7 # 2]];
           [[11 # 2; 11 # 2]; [15 # 2; 15 # 2]];
           [[19 # 2; 19 # 2]; [23 # 2; 23 # 2]]])
  /\ exists im,
       @gaussian ToyFilters.skfilters (frame_of Toy.movie 1) 2 = Returned im
       /\ fits im (ydim Toy.movie) (xdim Toy.movie)
       /\ image_at im 1 0 = 15 # 2.
Proof.
  split; [vm_compute; reflexivity|].
  destruct (@gaussian_blur_result Toy.numpy ToyFilters.skfilters Toy.movie
              (mk_ndarray (3, 2, 2)%nat Float64
                 [[[3 # 2; 3 # 2]; [7 # 2; 7 # 2]];
                  [[11 # 2; 11 # 2]; [15 # 2; 15 # 2]];
                  [[19 # 2; 19 # 2]; [23 # 2; 23 # 2]]]) 2)
    as (_ & _ & _ & Hfr); [vm_compute; reflexivity|].
  destruct (Hfr 1%nat) as (im & Hg & Hfit & Hsam); [vm_compute; lia|].
  exists im. split; [exact Hg|]. split; [exact Hfit|].
  symmetry. apply (Hsam 1%nat 0%nat); vm_compute; lia.
Defined.

Lemma preprocessing_of_empty_movie_witness :
  nframes ToyCases.no_frames = 0%nat /\ (1 # 2) <= 1
  /\ @down_sample Toy.numpy Toy.skimage ToyCases.no_frames (1 # 2)
     = Err (IndexError "index is out of bounds")
  /\ @gaussian_blur Toy.numpy ToyFilters.skfilters ToyCases.no_frames (-1)
     = Ok (zeros (0, 2, 2)%nat Float64).
Proof.
  split; [reflexivity|]. split; [discriminate|].
  destruct (@preprocessing_of_empty_movie Toy.numpy Toy.skimage
              ToyFilters.skfilters ToyCases.no_frames (1 # 2) (-1) eq_refl)
    as [Hd Hg].
  split; [apply Hd; discriminate | exact Hg].
Defined.

Lemma gaussian_blur_library_error_witness :
  (1 < nframes Toy.movie)%nat
  /\ @gaussian ToyCases.picky_skfilters (frame_of Toy.movie 1) 2
     = Raised "image rejected"
  /\ @gaussian ToyCases.picky_skfilters (frame_of Toy.movie 0) 2
     = Returned (frame_of Toy.movie 0)
  /\ @gaussian_blur Toy.numpy ToyCases.picky_skfilters Toy.movie 2
     = Err (LibError "image rejected").
Proof.
  split; [vm_compute; lia|]. split; [reflexivity|]. split; [reflexivity|].
  apply (@gaussian_blur_library_error Toy.numpy ToyCases.picky_skfilters
           Toy.movie 2 1%nat "image rejected");
    [vm_compute; lia | reflexivity |].
  intros f' Hf'. assert (f' = 0%nat) by lia. subst f'.
  exists (frame_of Toy.movie 0). split; [reflexivity|].
  split; left; reflexivity.
Defined.

Lemma down_sample_library_error_witness :
  1 <= 1 /\ (1 < nframes Toy.movie)%nat
  /\ @rescale ToyCases.picky_skimage (frame_of Toy.movie 1) 1
     = Raised "image rejected"
  /\ @rescale ToyCases.picky_skimage (frame_of Toy.movie 0) 1
     = Returned (frame_of Toy.movie 0)
  /\ @down_sample Toy.numpy ToyCases.picky_skimage Toy.movie 1
     = Err (LibError "image rejected").
Proof.
  split; [discriminate|]. split; [vm_compute; lia|].
  split; [reflexivity|]. split; [reflexivity|].
  apply (@down_sample_library_error Toy.numpy ToyCases.picky_skimage
           Toy.movie 1 1%nat "image rejected");
    [discriminate | vm_compute; lia | reflexivity |].
  intros f' Hf'. assert (f' = 0%nat) by lia. subst f'.
  exists (frame_of Toy.movie 0), (frame_of Toy.movie 0).
  split; [reflexivity|]. split; [reflexivity|].
  split; left; reflexivity.
Defined.

Lemma run_parallel_independent_of_worker_count_witness :
  nth_error [Toy.movie] 0 = Some Toy.movie
  /\ wf Toy.movie
  /\ (1 <= 1 <= 4)%Z /\ (1 <= 4 <= 4)%Z
  /\ forall o,
       call (@run_parallel Toy.numpy Toy.pyboat 4 0%nat 1 1 10 30 5
               None None) [Toy.movie] = Ok o
       <-> call (@run_parallel Toy.numpy Toy.pyboat 4 0%nat 4 1 10 30 5
                   None None) [Toy.movie] = Ok o.
Proof.
  split; [reflexivity|]. split; [reflexivity|].
  split; [lia|]. split; [lia|].
  intros o.
  apply (@run_parallel_independent_of_worker_count Toy.numpy Toy.pyboat
           [Toy.movie] 0%nat Toy.movie 4 1 4 1 10 30 5 None None o);
    [reflexivity | reflexivity | lia | lia].
Defined.
